(** * LP^MLN to ASP rule rewriting: the [LPMLNTransformer] of transformer.py

    A shallow embedding of the transformer class and of the part of the
    clingo AST it touches, followed by the properties of the rule
    encoder, of the rule-level handler and of the traversal. *)

From Stdlib Require Import List String ZArith Bool Lia DecimalString.
Import ListNotations.
Local Open Scope string_scope.
Local Open Scope Z_scope.
Local Open Scope list_scope.

Set Implicit Arguments.
Set Warnings "-register-all".

(** ** Python values and exceptions *)

(** The exceptions the transformer can raise.  [ExternalError] stands for
    an exception raised inside a call that leaves the module
    ([eval], [float], [math.log], float division), with its message. *)
Inductive PyError : Type :=
| AttributeError
| TypeError
| IndexError
| RuntimeError
| UnboundLocalError
| ExternalError (msg : string).

Inductive Result (A : Type) : Type :=
| Ok (value : A)
| Err (e : PyError).

Arguments Ok {A} value.
Arguments Err {A} e.

Definition bindR {A B : Type} (r : Result A) (k : A -> Result B) : Result B :=
  match r with
  | Ok a => k a
  | Err e => Err e
  end.

Declare Scope py_scope.
Delimit Scope py_scope with py.
Notation "'do' x <- r ; k" := (bindR r (fun x => k))
  (at level 10, x pattern, r at level 100, k at level 200) : py_scope.
Local Open Scope py_scope.

(** ** clingo symbols *)

Inductive Symbol : Type :=
| Number (n : Z)
| String (s : string)
| SymbolFunction (name : string) (arguments : list Symbol) (positive : bool)
| Infimum
| Supremum.

(** [symbol.number]: clingo raises [RuntimeError] unless the symbol is a
    number. *)
Definition symbol_number (s : Symbol) : Result Z :=
  match s with
  | Number n => Ok n
  | _ => Err RuntimeError
  end.

(** [symbol.string]: [RuntimeError] unless the symbol is a string. *)
Definition symbol_string (s : Symbol) : Result string :=
  match s with
  | String t => Ok t
  | _ => Err RuntimeError
  end.

(** ** The clingo AST *)

(** Source locations are opaque tokens. *)
Definition Location : Type := Z.

(** [ast.Sign]. *)
Inductive Sign : Type := NoSign | Negation | DoubleNegation.

(** The node kinds the transformer builds or inspects, with the
    attributes of [clingo.ast].  [Node] is any other node kind: it has no
    handler, so only its children matter.  The constructor [Variable_]
    is clingo's [ast.Variable]. *)
Inductive AST : Type :=
| Variable_ (location : Location) (name : string)
| SymbolicTerm (location : Location) (symbol : Symbol)
| Function (location : Location) (name : string)
           (arguments : list AST) (external : bool)
| BooleanConstant (value : bool)
| SymbolicAtom (symbol : AST)
| Literal (location : Location) (sign : Sign) (atom : AST)
| ConditionalLiteral (location : Location) (literal : AST)
                     (condition : list AST)
| Aggregate (location : Location) (left_guard : option AST)
            (elements : list AST) (right_guard : option AST)
| TheoryAtom (location : Location) (term : AST) (elements : list AST)
             (guard : option AST)
| Rule (location : Location) (head : AST) (body : list AST)
| Minimize (location : Location) (weight priority : AST)
           (terms : list AST) (body : list AST)
| Node (kind : string) (location : Location) (children : list AST).

(** *** Attribute access

    An attribute a node kind lacks raises [AttributeError]. *)

Definition ast_location (a : AST) : Result Location :=
  match a with
  | Variable_ l _ | SymbolicTerm l _ | Function l _ _ _ | Literal l _ _
  | ConditionalLiteral l _ _ | Aggregate l _ _ _ | TheoryAtom l _ _ _
  | Rule l _ _ | Minimize l _ _ _ _ | Node _ l _ => Ok l
  | BooleanConstant _ | SymbolicAtom _ => Err AttributeError
  end.

Definition ast_atom (a : AST) : Result AST :=
  match a with
  | Literal _ _ atom => Ok atom
  | _ => Err AttributeError
  end.

Definition ast_name (a : AST) : Result string :=
  match a with
  | Variable_ _ name | Function _ name _ _ => Ok name
  | _ => Err AttributeError
  end.

Definition ast_arguments (a : AST) : Result (list AST) :=
  match a with
  | Function _ _ arguments _ => Ok arguments
  | _ => Err AttributeError
  end.

(** [node.symbol] is a clingo symbol on a symbolic term and a term on a
    symbolic atom. *)
Definition ast_symbol (a : AST) : Result (Symbol + AST) :=
  match a with
  | SymbolicTerm _ s => Ok (inl s)
  | SymbolicAtom t => Ok (inr t)
  | _ => Err AttributeError
  end.

Definition is_TheoryAtom (a : AST) : bool :=
  match a with TheoryAtom _ _ _ _ => true | _ => false end.

(** [seq[0]]. *)
Definition item0 {A : Type} (l : list A) : Result A :=
  match l with
  | x :: _ => Ok x
  | [] => Err IndexError
  end.

(** *** Equality of nodes

    [==] on clingo nodes compares kind and attributes and leaves the
    location out, so two occurrences of [X] in one rule are equal. *)

Section ListEqb.
Variable A : Type.
Variable eqb : A -> A -> bool.

Fixpoint list_eqb (l1 l2 : list A) : bool :=
  match l1, l2 with
  | [], [] => true
  | x :: l1', y :: l2' => eqb x y && list_eqb l1' l2'
  | _, _ => false
  end.

Definition option_eqb (o1 o2 : option A) : bool :=
  match o1, o2 with
  | None, None => true
  | Some x, Some y => eqb x y
  | _, _ => false
  end.
End ListEqb.

Fixpoint symbol_equal (s1 s2 : Symbol) {struct s1} : bool :=
  match s1, s2 with
  | Number n1, Number n2 => Z.eqb n1 n2
  | String t1, String t2 => String.eqb t1 t2
  | SymbolFunction n1 a1 p1, SymbolFunction n2 a2 p2 =>
      String.eqb n1 n2 && list_eqb symbol_equal a1 a2 && Bool.eqb p1 p2
  | Infimum, Infimum => true
  | Supremum, Supremum => true
  | _, _ => false
  end.

Definition sign_equal (s1 s2 : Sign) : bool :=
  match s1, s2 with
  | NoSign, NoSign | Negation, Negation | DoubleNegation, DoubleNegation => true
  | _, _ => false
  end.

Fixpoint ast_equal (a b : AST) {struct a} : bool :=
  match a, b with
  | Variable_ _ n1, Variable_ _ n2 => String.eqb n1 n2
  | SymbolicTerm _ s1, SymbolicTerm _ s2 => symbol_equal s1 s2
  | Function _ n1 a1 e1, Function _ n2 a2 e2 =>
      String.eqb n1 n2 && list_eqb ast_equal a1 a2 && Bool.eqb e1 e2
  | BooleanConstant v1, BooleanConstant v2 => Bool.eqb v1 v2
  | SymbolicAtom t1, SymbolicAtom t2 => ast_equal t1 t2
  | Literal _ s1 a1, Literal _ s2 a2 => sign_equal s1 s2 && ast_equal a1 a2
  | ConditionalLiteral _ l1 c1, ConditionalLiteral _ l2 c2 =>
      ast_equal l1 l2 && list_eqb ast_equal c1 c2
  | Aggregate _ lg1 e1 rg1, Aggregate _ lg2 e2 rg2 =>
      option_eqb ast_equal lg1 lg2 && list_eqb ast_equal e1 e2
      && option_eqb ast_equal rg1 rg2
  | TheoryAtom _ t1 e1 g1, TheoryAtom _ t2 e2 g2 =>
      ast_equal t1 t2 && list_eqb ast_equal e1 e2 && option_eqb ast_equal g1 g2
  | Rule _ h1 b1, Rule _ h2 b2 => ast_equal h1 h2 && list_eqb ast_equal b1 b2
  | Minimize _ w1 p1 t1 b1, Minimize _ w2 p2 t2 b2 =>
      ast_equal w1 w2 && ast_equal p1 p2 && list_eqb ast_equal t1 t2
      && list_eqb ast_equal b1 b2
  | Node k1 _ c1, Node k2 _ c2 => String.eqb k1 k2 && list_eqb ast_equal c1 c2
  | _, _ => false
  end.

(** [x in seq]: some element equals [x]. *)
Definition ast_in (x : AST) (l : list AST) : bool :=
  existsb (fun e => ast_equal e x) l.

(** ** What the module imports

    The pieces that live outside transformer.py: Python's [eval],
    [float] and [math.log], clingo's printer, [utils.calculate_weight]
    and the P-log converter of [plog.ConvertPlog]. *)

(** A Python number: the [int] read off a numeric symbol or a [float]. *)
Inductive PyNumber (F : Type) : Type :=
| PyInt (n : Z)
| PyFloatValue (x : F).

Arguments PyInt {F} n.
Arguments PyFloatValue {F} x.

Class Runtime : Type := {
  (** Python floats *)
  PyFloat : Type;
  (** [float(eval(s))] *)
  eval_float : string -> Result PyFloat;
  (** [math.log(x)] *)
  math_log : PyFloat -> Result PyFloat;
  (** [p / (1 - p)] *)
  odds : PyFloat -> Result PyFloat;
  (** [calculate_weight(weight, power_of_ten)] *)
  calculate_weight : PyNumber PyFloat -> Z -> Symbol;
  (** [str(node)] *)
  ast_str : AST -> string;
  (** [self.plog.convert_random(head, body)] *)
  convert_random : AST -> list AST -> list AST;
  (** [self.plog.convert_pr(head, body)] *)
  convert_pr : AST -> list AST -> list AST;
  (** [self.plog.convert_obs_do(head)] *)
  convert_obs_do : AST -> list AST
}.

(** ** The transformer object *)

(** [self.weight] holds the string ['alpha'] or [''], the symbol
    [calculate_weight] returned, or the term [_get_constraint_parameters]
    replaces ['alpha'] with. *)
Inductive PyWeight : Type :=
| WeightStr (s : string)
| WeightSymbol (s : Symbol)
| WeightTerm (t : AST).

(** [self.global_variables] is a list while a rule is traversed and the
    function term [_get_constraint_parameters] packs it into afterwards. *)
Inductive PyGlobals : Type :=
| GlobalsList (l : list AST)
| GlobalsTerm (t : AST).

Record LPMLNTransformer : Type := {
  rule_idx : Z;
  expansion_variables : Z;
  translate_hr : bool;
  use_unsat : bool;
  two_solve_calls : bool;
  power_of_ten : Z;
  query : list AST;
  weight : PyWeight;
  theory_type : string;
  global_variables : PyGlobals
}.

(** [LPMLNTransformer(options)]; the three per-rule fields do not exist
    before the first rule and are given the values [visit_Rule] resets
    them to. *)
Definition __init__ (hr unsat two : bool) (power : Z) : LPMLNTransformer :=
  {| rule_idx := 0; expansion_variables := 0; translate_hr := hr;
     use_unsat := unsat; two_solve_calls := two; power_of_ten := power;
     query := []; weight := WeightStr "alpha"; theory_type := "";
     global_variables := GlobalsList [] |}.

Definition set_rule_idx (i : Z) (self : LPMLNTransformer) : LPMLNTransformer :=
  {| rule_idx := i; expansion_variables := expansion_variables self;
     translate_hr := translate_hr self; use_unsat := use_unsat self;
     two_solve_calls := two_solve_calls self;
     power_of_ten := power_of_ten self; query := query self;
     weight := weight self; theory_type := theory_type self;
     global_variables := global_variables self |}.

Definition set_weight (w : PyWeight) (self : LPMLNTransformer) : LPMLNTransformer :=
  {| rule_idx := rule_idx self; expansion_variables := expansion_variables self;
     translate_hr := translate_hr self; use_unsat := use_unsat self;
     two_solve_calls := two_solve_calls self;
     power_of_ten := power_of_ten self; query := query self;
     weight := w; theory_type := theory_type self;
     global_variables := global_variables self |}.

Definition set_theory_type (t : string) (self : LPMLNTransformer) : LPMLNTransformer :=
  {| rule_idx := rule_idx self; expansion_variables := expansion_variables self;
     translate_hr := translate_hr self; use_unsat := use_unsat self;
     two_solve_calls := two_solve_calls self;
     power_of_ten := power_of_ten self; query := query self;
     weight := weight self; theory_type := t;
     global_variables := global_variables self |}.

Definition set_global_variables (g : PyGlobals) (self : LPMLNTransformer) : LPMLNTransformer :=
  {| rule_idx := rule_idx self; expansion_variables := expansion_variables self;
     translate_hr := translate_hr self; use_unsat := use_unsat self;
     two_solve_calls := two_solve_calls self;
     power_of_ten := power_of_ten self; query := query self;
     weight := weight self; theory_type := theory_type self;
     global_variables := g |}.

Definition set_two_solve_calls (b : bool) (self : LPMLNTransformer) : LPMLNTransformer :=
  {| rule_idx := rule_idx self; expansion_variables := expansion_variables self;
     translate_hr := translate_hr self; use_unsat := use_unsat self;
     two_solve_calls := b;
     power_of_ten := power_of_ten self; query := query self;
     weight := weight self; theory_type := theory_type self;
     global_variables := global_variables self |}.

(** [self.weight == 'alpha'] *)
Definition weight_is_alpha (w : PyWeight) : bool :=
  match w with
  | WeightStr s => String.eqb s "alpha"
  | _ => false
  end.

(** A method: it reads and updates [self] and returns or raises. *)
Definition Method (A : Type) : Type :=
  LPMLNTransformer -> Result (A * LPMLNTransformer).

(** ** The weak-constraint parameters and the unsat atoms *)

(** clingo's constructors take a sequence for [arguments] and a symbol
    for [symbol] and raise [TypeError] on anything else; inside
    [visit_Rule] the fields hold a list and a string or a symbol here. *)
Definition _get_constraint_parameters (location : Location)
  : Method (AST * AST * AST) := fun self =>
  let idx := SymbolicTerm location (Number (rule_idx self)) in
  do vars <- match global_variables self with
             | GlobalsList l => Ok l
             | GlobalsTerm _ => Err TypeError
             end;
  let self := set_global_variables
                (GlobalsTerm (Function location "" vars false)) self in
  if weight_is_alpha (weight self) then
    let self := set_weight
                  (WeightTerm (SymbolicTerm location (String "alpha"))) self in
    let constraint_weight := SymbolicTerm location (Number 1) in
    let priority := Number 1 in
    Ok ((idx, constraint_weight, SymbolicTerm location priority), self)
  else
    do constraint_weight <- match weight self with
                            | WeightSymbol w => Ok (SymbolicTerm location w)
                            | _ => Err TypeError
                            end;
    let priority := Number 0 in
    Ok ((idx, constraint_weight, SymbolicTerm location priority), self).

(** [self.weight] and [self.global_variables] as members of the node
    list a clingo constructor is given: the constructor takes nodes only
    and raises [TypeError] on anything else.  After
    [_get_constraint_parameters] the weight of a hard rule is the term
    ["alpha"]; the weight of a soft rule is still the bare symbol. *)
Definition weight_node (w : PyWeight) : Result AST :=
  match w with
  | WeightTerm t => Ok t
  | WeightSymbol _ => Err TypeError
  | WeightStr _ => Err TypeError
  end.

Definition globals_node (g : PyGlobals) : Result AST :=
  match g with
  | GlobalsTerm t => Ok t
  | GlobalsList _ => Err TypeError
  end.

Definition _get_unsat_atoms (location : Location) (idx : AST)
           (self : LPMLNTransformer) : Result (AST * AST) :=
  do w <- weight_node (weight self);
  do g <- globals_node (global_variables self);
  let unsat_arguments := [idx; w; g] in
  let unsat := SymbolicAtom (Function location "unsat" unsat_arguments false) in
  let not_unsat := Literal location Negation unsat in
  let unsat := Literal location NoSign unsat in
  Ok (unsat, not_unsat).

(** The state [visit_Rule] traverses the head from. *)
Definition reset_rule (self : LPMLNTransformer) : LPMLNTransformer :=
  set_global_variables (GlobalsList [])
    (set_theory_type "" (set_weight (WeightStr "alpha") self)).

(** A fact: no theory atom as head and an empty body. *)
Definition is_fact (head : AST) (body : list AST) : bool :=
  negb (is_TheoryAtom head) && (List.length body =? 0)%nat.

Section Transformer.
Context {R : Runtime}.

(** ** The weighted-rule encoder *)

(** The sentinel literal of the two-solve-calls mode. *)
Definition ext_helper_literal (loc : Location) : AST :=
  let ext_helper_atom := SymbolicAtom (Function loc "ext_helper" [] false) in
  Literal loc NoSign ext_helper_atom.

(** [body] is a Python list the method inserts into and deletes from.  A
    clingo constructor copies the sequence it is given, so each rule
    keeps the body as it was when the rule was built; the list itself is
    the local [body] rebound at every [insert] and [del].
    [self.global_variables], read where the weak constraint is built, is
    the term [_get_constraint_parameters] has just stored; it is bound
    once as [globals]. *)
Definition _convert_rule (head : AST) (body : list AST) : Method (list AST) :=
  fun self =>
  do loc <- ast_location head;
  do (idx, constraint_weight, priority, self) <-
       _get_constraint_parameters loc self;
  (* Choice rules without bound can be skipped *)
  let skip :=
    match head with
    | Aggregate _ None _ None => true
    | _ => false
    end in
  if skip then Ok ([Rule loc head body], self)
  else
    do not_head <- match head with
                   | Aggregate _ _ _ _ => Ok (Literal loc Negation head)
                   | _ => do atom <- ast_atom head;
                          Ok (Literal loc Negation atom)
                   end;
    do globals <- globals_node (global_variables self);
    if use_unsat self then
      do (unsat, not_unsat) <- _get_unsat_atoms loc idx self;
      (* Rule 1 (unsat :- Body, not Head) *)
      let body := not_head :: body in
      let asp_rule1 := Rule loc unsat body in
      (* Rule 2 (Head :- Body, not unsat) *)
      let body := tl body in
      let body := not_unsat :: body in
      let asp_rule2 := Rule loc head body in
      (* Rule 3 (weak constraint unsat) *)
      let asp_rule3 := Minimize loc constraint_weight priority
                                [idx; globals] [unsat] in
      Ok ([asp_rule1; asp_rule2; asp_rule3], self)
    else
      do (asp_rules, body) <-
        match head with
        | Aggregate _ _ elements _ =>
            let agg1 := Aggregate loc None elements None in
            Ok ([Rule loc agg1 body], not_head :: body)
        | _ =>
            do atom <- ast_atom head;
            match atom with
            | BooleanConstant false => Ok ([], body)
            | _ =>
                let cond_head := ConditionalLiteral loc head [] in
                let choice_head := Aggregate loc None [cond_head] None in
                Ok ([Rule loc choice_head body], not_head :: body)
            end
        end;
      let body :=
        if two_solve_calls self && String.eqb (ast_str priority) "0"
        then ext_helper_literal loc :: body
        else body in
      let weak_constraint := Minimize loc constraint_weight priority
                                      [idx; globals] body in
      Ok (asp_rules ++ [weak_constraint], self).

(** ** The traversal *)

(** [visit_Variable] *)
Definition visit_Variable (variable : AST) : Method AST := fun self =>
  match global_variables self with
  | GlobalsList l =>
      if negb (ast_in variable l)
      then Ok (variable, set_global_variables (GlobalsList (l ++ [variable])) self)
      else Ok (variable, self)
  | GlobalsTerm _ => Err TypeError
  end.

(** The weight a weight-bearing annotation denotes; [name] is none of
    the six P-log and evidence names. *)
Definition annotation_weight (name : string) (symbol : Symbol + AST)
  : Result (PyNumber PyFloat) :=
  if String.eqb name "weight" then
    do sym <- match symbol with inl s => Ok s | inr _ => Err AttributeError end;
    match symbol_number sym with
    | Ok n => Ok (PyInt n)
    | Err RuntimeError =>
        do s <- symbol_string sym;
        do x <- eval_float s;
        Ok (PyFloatValue x)
    | Err e => Err e
    end
  else if String.eqb name "log" then
    do sym <- match symbol with inl s => Ok s | inr _ => Err AttributeError end;
    do s <- symbol_string sym;
    do x <- eval_float s;
    do y <- math_log x;
    Ok (PyFloatValue y)
  else if String.eqb name "problog" then
    do sym <- match symbol with inl s => Ok s | inr _ => Err AttributeError end;
    do s <- symbol_string sym;
    do p <- eval_float s;
    do q <- odds p;
    do y <- math_log q;
    Ok (PyFloatValue y)
  else Err UnboundLocalError.

Definition plog_names : list string := ["query"; "random"; "pr"; "obs"; "do"].

Definition name_in (name : string) (names : list string) : bool :=
  existsb (String.eqb name) names.

(** The sign of an evidence literal, from the annotation's arguments. *)
Definition evidence_sign (args : list AST) : Sign :=
  match args with
  | _ :: arg1 :: _ =>
      if String.eqb (ast_str arg1) "false" then NoSign else Negation
  | _ => Negation
  end.

(** [visit_TheoryAtom] *)
Definition visit_TheoryAtom (atom : AST) : Method AST := fun self =>
  match atom with
  | TheoryAtom location term _ _ =>
      let self := set_weight (WeightStr "") self in
      do name <- ast_name term;
      if name_in name plog_names then
        Ok (atom, set_theory_type name self)
      else if String.eqb name "evidence" then
        let self := set_theory_type name self in
        do args <- ast_arguments term;
        do evidence <- item0 args;
        let sign := evidence_sign args in
        Ok (Literal location sign (SymbolicAtom evidence), self)
      else
        do args <- ast_arguments term;
        do arg0 <- item0 args;
        do symbol <- ast_symbol arg0;
        do w <- annotation_weight name symbol;
        let self := set_weight
                      (WeightSymbol (calculate_weight w (power_of_ten self)))
                      self in
        Ok (BooleanConstant true, self)
  | _ => Err AttributeError
  end.

(** [Transformer.visit_sequence]: the elements in order, each from the
    state the previous one left. *)
Section VisitSequence.
Variable visit : AST -> Method AST.

Fixpoint visit_sequence (l : list AST) : Method (list AST) := fun self =>
  match l with
  | [] => Ok ([], self)
  | x :: l' =>
      do (x', self) <- visit x self;
      do (l'', self) <- visit_sequence l' self;
      Ok (x' :: l'', self)
  end.

(** An optional child: [None] is left alone. *)
Definition visit_optional (o : option AST) : Method (option AST) := fun self =>
  match o with
  | None => Ok (None, self)
  | Some x => do (x', self) <- visit x self; Ok (Some x', self)
  end.
End VisitSequence.

(** [visit] as [visit_Rule] calls it on the head and the body, with no
    further argument: a node kind with a handler goes to the handler, any
    other is rebuilt from its visited children, in the order of the
    kind's child attributes.  [visit_Rule] and [visit_Minimize] take the
    builder, so reaching one here is a [TypeError]. *)
Fixpoint visit (a : AST) {struct a} : Method AST := fun self =>
  match a with
  | Variable_ _ _ => visit_Variable a self
  | TheoryAtom _ _ _ _ => visit_TheoryAtom a self
  | Rule _ _ _ => Err TypeError
  | Minimize _ _ _ _ _ => Err TypeError
  | SymbolicTerm _ _ => Ok (a, self)
  | BooleanConstant _ => Ok (a, self)
  | Function loc name arguments external =>
      do (arguments, self) <- visit_sequence visit arguments self;
      Ok (Function loc name arguments external, self)
  | SymbolicAtom symbol =>
      do (symbol, self) <- visit symbol self;
      Ok (SymbolicAtom symbol, self)
  | Literal loc sign atom =>
      do (atom, self) <- visit atom self;
      Ok (Literal loc sign atom, self)
  | ConditionalLiteral loc literal condition =>
      do (literal, self) <- visit literal self;
      do (condition, self) <- visit_sequence visit condition self;
      Ok (ConditionalLiteral loc literal condition, self)
  | Aggregate loc left_guard elements right_guard =>
      do (left_guard, self) <- visit_optional visit left_guard self;
      do (elements, self) <- visit_sequence visit elements self;
      do (right_guard, self) <- visit_optional visit right_guard self;
      Ok (Aggregate loc left_guard elements right_guard, self)
  | Node kind loc children =>
      do (children, self) <- visit_sequence visit children self;
      Ok (Node kind loc children, self)
  end.

(** ** The rule-level handler *)

(** The builder is the list of the statements added to it, oldest
    first.  The tail of [visit_Rule]: all but the last rule go to the
    builder, the last one is returned. *)
Definition emit (asp_rules : list AST) (builder : list AST)
           (self : LPMLNTransformer)
  : Result (AST * list AST * LPMLNTransformer) :=
  match asp_rules with
  | [] => Err IndexError
  | r :: rest => Ok (last rest r, builder ++ removelast asp_rules, self)
  end.

(** [visit_Rule] *)
Definition visit_Rule (rule : AST) (builder : list AST)
           (self : LPMLNTransformer)
  : Result (AST * list AST * LPMLNTransformer) :=
  match rule with
  | Rule location head body =>
      (* Set weight to alpha by default *)
      let self := reset_rule self in
      if is_fact head body then
        Ok (rule, builder, self)
      else
        (* Traverse head and body to look for weights and variables *)
        do (head, self) <- visit head self;
        do (body, self) <- visit_sequence visit body self;
        if String.eqb (theory_type self) "query" then
          Ok (rule, builder, self)
        else if String.eqb (theory_type self) "evidence" then
          do head_location <- ast_location head;
          let int_constraint_head :=
            Literal head_location NoSign (BooleanConstant false) in
          Ok (Rule location int_constraint_head [head], builder, self)
        else if String.eqb (theory_type self) "random" then
          emit (convert_random head body) builder self
        else if String.eqb (theory_type self) "pr" then
          emit (convert_pr head body) builder self
        else if name_in (theory_type self) ["obs"; "do"] then
          emit (convert_obs_do head) builder self
        else if weight_is_alpha (weight self) && negb (translate_hr self) then
          Ok (rule, builder, set_rule_idx (rule_idx self + 1) self)
        else
          do (asp_rules, self) <- _convert_rule head body self;
          let self := set_rule_idx (rule_idx self + 1) self in
          emit asp_rules builder self
  | _ => Err AttributeError
  end.

(** [visit_Minimize] *)
Definition visit_Minimize (minimize : AST) (builder : list AST)
           (self : LPMLNTransformer)
  : Result (AST * list AST * LPMLNTransformer) :=
  Ok (minimize, builder, self).

End Transformer.

(** ** What a traversal reaches *)

(** The variable nodes [visit] reaches in a node, in the order it
    reaches them.  Handlers do not descend: nothing below a theory atom
    is visited. *)
Fixpoint variables_of (a : AST) {struct a} : list AST :=
  match a with
  | Variable_ _ _ => [a]
  | Function _ _ arguments _ => flat_map variables_of arguments
  | SymbolicAtom symbol => variables_of symbol
  | Literal _ _ atom => variables_of atom
  | ConditionalLiteral _ literal condition =>
      variables_of literal ++ flat_map variables_of condition
  | Aggregate _ left_guard elements right_guard =>
      match left_guard with Some g => variables_of g | None => [] end
      ++ flat_map variables_of elements
      ++ match right_guard with Some g => variables_of g | None => [] end
  | Node _ _ children => flat_map variables_of children
  | _ => []
  end.

(** The theory atoms [visit] reaches, in order. *)
Fixpoint annotations_of (a : AST) {struct a} : list AST :=
  match a with
  | TheoryAtom _ _ _ _ => [a]
  | Function _ _ arguments _ => flat_map annotations_of arguments
  | SymbolicAtom symbol => annotations_of symbol
  | Literal _ _ atom => annotations_of atom
  | ConditionalLiteral _ literal condition =>
      annotations_of literal ++ flat_map annotations_of condition
  | Aggregate _ left_guard elements right_guard =>
      match left_guard with Some g => annotations_of g | None => [] end
      ++ flat_map annotations_of elements
      ++ match right_guard with Some g => annotations_of g | None => [] end
  | Node _ _ children => flat_map annotations_of children
  | _ => []
  end.

(** Nodes a parsed head or body is made of: no statement below them and
    no theory atom. *)
Fixpoint plain (a : AST) {struct a} : bool :=
  match a with
  | Variable_ _ _ | SymbolicTerm _ _ | BooleanConstant _ => true
  | Function _ _ arguments _ => forallb plain arguments
  | SymbolicAtom symbol => plain symbol
  | Literal _ _ atom => plain atom
  | ConditionalLiteral _ literal condition =>
      plain literal && forallb plain condition
  | Aggregate _ left_guard elements right_guard =>
      match left_guard with Some g => plain g | None => true end
      && forallb plain elements
      && match right_guard with Some g => plain g | None => true end
  | Node _ _ children => forallb plain children
  | TheoryAtom _ _ _ _ | Rule _ _ _ | Minimize _ _ _ _ _ => false
  end.

(** The variables of a list in the order of their first occurrence,
    each kept once: the head, then the rest without what equals it. *)
Fixpoint first_occurrences (l : list AST) : list AST :=
  match l with
  | [] => []
  | x :: l' =>
      x :: filter (fun y => negb (ast_equal x y)) (first_occurrences l')
  end.

(** ** A runtime to run the transformer on examples

    Floats are cut down to integers: [eval] reads a decimal numeral and
    fails on anything else, [log] is the binary logarithm and fails
    outside its domain, the weight is scaled by the power of ten.  The
    printer covers the terms the transformer prints. *)

Definition example_eval_float (s : string) : Result Z :=
  match DecimalString.NilZero.uint_of_string s with
  | Some n => Ok (Z.of_uint n)
  | None => Err (ExternalError "invalid syntax")
  end.

Definition example_math_log (x : Z) : Result Z :=
  if x <=? 0 then Err (ExternalError "math domain error") else Ok (Z.log2 x).

Definition example_odds (p : Z) : Result Z :=
  if 1 - p =? 0 then Err (ExternalError "float division by zero")
  else Ok (p / (1 - p)).

Definition example_calculate_weight (w : PyNumber Z) (power : Z) : Symbol :=
  match w with
  | PyInt n => Number (n * 10 ^ power)
  | PyFloatValue x => Number (x * 10 ^ power)
  end.

Definition example_symbol_str (s : Symbol) : string :=
  match s with
  | Number n => DecimalString.NilZero.string_of_int (Z.to_int n)
  | String t => t
  | SymbolFunction name _ _ => name
  | Infimum => "#inf"
  | Supremum => "#sup"
  end.

Definition example_ast_str (a : AST) : string :=
  match a with
  | Variable_ _ name => name
  | SymbolicTerm _ s => example_symbol_str s
  | Function _ name _ _ => name
  | _ => ""
  end.

#[export] Instance example_runtime : Runtime := {
  PyFloat := Z;
  eval_float := example_eval_float;
  math_log := example_math_log;
  odds := example_odds;
  calculate_weight := example_calculate_weight;
  ast_str := example_ast_str;
  convert_random := fun head body => [Rule 0 head body];
  convert_pr := fun head body => [Rule 0 head body];
  convert_obs_do := fun head => [Rule 0 head []]
}.

(** Nodes of small programs: the atom [name] at location [l], the
    literal over it, and a theory atom [&name(args)] at [l]. *)
Definition atom_ (l : Location) (name : string) : AST :=
  SymbolicAtom (Function l name [] false).

Definition lit_ (l : Location) (name : string) : AST :=
  Literal l NoSign (atom_ l name).

Definition annotation_ (l : Location) (name : string) (args : list AST) : AST :=
  TheoryAtom l (Function l name args false) [] None.
(** The constant [name] as a term. *)
Definition const_ (l : Location) (name : string) : AST :=
  SymbolicTerm l (SymbolFunction name [] true).

(** ** Example programs *)

(** A session with the given flags and rule index 0. *)
Definition session (hr unsat two : bool) : LPMLNTransformer :=
  __init__ hr unsat two 0.

(** The state after the traversal of a rule that recorded the weight
    [w] and no variable. *)
Definition traversed (w : PyWeight) (s : LPMLNTransformer) : LPMLNTransformer :=
  set_weight w (reset_rule s).

(** The body literal [&weight(2)]. *)
Definition weight_2 (l : Location) : AST :=
  Literal l NoSign (annotation_ l "weight" [SymbolicTerm l (Number 2)]).

(** [a :- b, &weight(2).] *)
Definition soft_rule : AST :=
  Rule 9 (lit_ 1 "a") [lit_ 2 "b"; weight_2 3].

(** [{a; b} :- c, &weight(2).] *)
Definition choice_head : AST :=
  Aggregate 1 None
            [ConditionalLiteral 1 (lit_ 1 "a") [];
             ConditionalLiteral 2 (lit_ 2 "b") []] None.

Definition choice_rule : AST :=
  Rule 9 choice_head [lit_ 3 "c"; weight_2 4].

(** [a :- b.] and the fact [a.] *)
Definition hard_rule : AST := Rule 9 (lit_ 1 "a") [lit_ 2 "b"].

Definition fact_rule : AST := Rule 9 (lit_ 1 "a") [].

(** [p(X) :- q(X, Y), r(Y), &weight(2).] *)
Definition variable_head : AST :=
  Literal 1 NoSign (SymbolicAtom (Function 1 "p" [Variable_ 2 "X"] false)).

Definition variable_body : list AST :=
  [Literal 3 NoSign
     (SymbolicAtom (Function 3 "q" [Variable_ 4 "X"; Variable_ 5 "Y"] false));
   Literal 6 NoSign (SymbolicAtom (Function 6 "r" [Variable_ 7 "Y"] false));
   weight_2 8].

(** [&evidence(p, false).] *)
Definition evidence_rule : AST :=
  Rule 9 (annotation_ 1 "evidence" [const_ 2 "p"; const_ 3 "false"]) [].

(** [a :- &evidence(p).] *)
Definition evidence_body_rule : AST :=
  Rule 9 (lit_ 1 "a")
       [Literal 2 NoSign (annotation_ 2 "evidence" [const_ 3 "p"])].

(** [&query(a).] *)
Definition query_head : AST := annotation_ 1 "query" [const_ 2 "a"].

(** [a :- &weight("abc").] and [b :- c, &log("abc").] *)
Definition bad_weight_rule : AST :=
  Rule 10 (lit_ 1 "a")
       [Literal 2 NoSign
          (annotation_ 2 "weight" [SymbolicTerm 2 (String "abc")])].

Definition bad_log_rule : AST :=
  Rule 20 (lit_ 5 "b")
       [lit_ 6 "c";
        Literal 7 NoSign (annotation_ 7 "log" [SymbolicTerm 7 (String "abc")])].

(** [a :- &weight(2), &weight(3).] *)
Definition twice_weighted_body : list AST :=
  [weight_2 2;
   Literal 3 NoSign (annotation_ 3 "weight" [SymbolicTerm 3 (Number 3)])].

(** ** Vocabulary of the properties *)

(** [visit_Variable] over a list of variables: each one is appended
    unless the list holds an equal one. *)
Definition collect_step (g : list AST) (v : AST) : list AST :=
  if negb (ast_in v g) then g ++ [v] else g.

Definition collect (g l : list AST) : list AST := fold_left collect_step l g.

Definition is_variable (a : AST) : bool :=
  match a with Variable_ _ _ => true | _ => false end.

(** The literal the encoder calls [not_head]: the negated aggregate for
    an aggregate head, the negated atom of the head otherwise. *)
Definition negated_head (loc : Location) (head : AST) : AST :=
  match head with
  | Literal _ _ atom => Literal loc Negation atom
  | _ => Literal loc Negation head
  end.

(** The heads the encoder goes on with: a literal, or an aggregate with
    a guard on at least one side. *)
Definition encoded_head (head : AST) : bool :=
  match head with
  | Literal _ _ _ => true
  | Aggregate _ None _ None => false
  | Aggregate _ _ _ _ => true
  | _ => false
  end.

(** A literal of the shape of the two-solve-calls sentinel. *)
Definition is_ext_helper (l : AST) : bool :=
  match l with
  | Literal _ NoSign (SymbolicAtom (Function _ name [] _)) =>
      String.eqb name "ext_helper"
  | _ => false
  end.

(** The literals of a statement: head and body of a rule, body of a
    weak constraint. *)
Definition statement_literals (r : AST) : list AST :=
  match r with
  | Rule _ head body => head :: body
  | Minimize _ _ _ _ body => body
  | _ => []
  end.

(** The names after which [visit_TheoryAtom] records a theory type. *)
Definition special_names : list string :=
  ["query"; "random"; "pr"; "obs"; "do"; "evidence"].

(** What [weight] and [theory_type] can hold while a rule is
    traversed: no theory atom met yet; the last one met was a P-log or
    evidence annotation; a weight has been stored. *)
Inductive traversal_state (s : LPMLNTransformer) : Prop :=
| ts_alpha :
    weight s = WeightStr "alpha" -> theory_type s = "" -> traversal_state s
| ts_reset :
    weight s = WeightStr "" ->
    existsb (String.eqb (theory_type s)) special_names = true ->
    traversal_state s
| ts_weight (w : Symbol) :
    weight s = WeightSymbol w ->
    theory_type s = "" \/
    existsb (String.eqb (theory_type s)) special_names = true ->
    traversal_state s.

(** Two states that differ in the per-rule fields only. *)
Definition same_session (s s' : LPMLNTransformer) : Prop :=
  rule_idx s' = rule_idx s /\
  expansion_variables s' = expansion_variables s /\
  translate_hr s' = translate_hr s /\
  use_unsat s' = use_unsat s /\
  two_solve_calls s' = two_solve_calls s /\
  power_of_ten s' = power_of_ten s /\
  query s' = query s.

(** Induction along the traversal: a property of every node follows
    from the property of the children [visit] descends into. *)
Section TraversalInduction.
Variable P : AST -> Prop.
Hypothesis P_Variable : forall l n, P (Variable_ l n).
Hypothesis P_SymbolicTerm : forall l s, P (SymbolicTerm l s).
Hypothesis P_Function :
  forall l n args e, Forall P args -> P (Function l n args e).
Hypothesis P_BooleanConstant : forall v, P (BooleanConstant v).
Hypothesis P_SymbolicAtom : forall t, P t -> P (SymbolicAtom t).
Hypothesis P_Literal : forall l sg a, P a -> P (Literal l sg a).
Hypothesis P_ConditionalLiteral :
  forall l lit cond, P lit -> Forall P cond -> P (ConditionalLiteral l lit cond).
Hypothesis P_Aggregate :
  forall l lg els rg,
    (forall g, lg = Some g -> P g) -> Forall P els ->
    (forall g, rg = Some g -> P g) -> P (Aggregate l lg els rg).
Hypothesis P_TheoryAtom : forall l t els g, P (TheoryAtom l t els g).
Hypothesis P_Rule : forall l h b, P (Rule l h b).
Hypothesis P_Minimize : forall l w p t b, P (Minimize l w p t b).
Hypothesis P_Node : forall k l ch, Forall P ch -> P (Node k l ch).

Fixpoint traversal_ind (a : AST) {struct a} : P a :=
  let all := fix all (l : list AST) : Forall P l :=
    match l with
    | [] => Forall_nil P
    | x :: l' => Forall_cons x (traversal_ind x) (all l')
    end in
  let opt := fun (o : option AST) =>
    match o return forall g, o = Some g -> P g with
    | Some x => fun g (E : Some x = Some g) =>
        match E in _ = y return match y with Some z => P z | None => True end
        with eq_refl => traversal_ind x end
    | None => fun g (E : None = Some g) =>
        match E in _ = y return match y with Some z => P g | None => True end
        with eq_refl => I end
    end in
  match a with
  | Variable_ l n => P_Variable l n
  | SymbolicTerm l s => P_SymbolicTerm l s
  | Function l n args e => P_Function l n e (all args)
  | BooleanConstant v => P_BooleanConstant v
  | SymbolicAtom t => P_SymbolicAtom (traversal_ind t)
  | Literal l sg x => P_Literal l sg (traversal_ind x)
  | ConditionalLiteral l lit cond =>
      P_ConditionalLiteral l (traversal_ind lit) (all cond)
  | Aggregate l lg els rg =>
      P_Aggregate l (opt lg) (all els) (opt rg)
  | TheoryAtom l t els g => P_TheoryAtom l t els g
  | Rule l h b => P_Rule l h b
  | Minimize l w p t b => P_Minimize l w p t b
  | Node k l ch => P_Node k l (all ch)
  end.
End TraversalInduction.

(** The state the encoder is entered in: the weight is ['alpha'] or a
    symbol and the variables are still a list. *)
Definition encoder_ready (s : LPMLNTransformer) : Prop :=
  (weight s = WeightStr "alpha" \/ exists sym, weight s = WeightSymbol sym) /\
  exists g, global_variables s = GlobalsList g.

(** The rules of a result, without the state. *)
Definition rules_of (r : Result (list AST * LPMLNTransformer))
  : Result (list AST) :=
  match r with
  | Ok (rules, _) => Ok rules
  | Err e => Err e
  end.

(** What a traversal step keeps: the session fields, the shape of the
    per-rule fields, and the variables being a list. *)
Definition traversal_kept (s s' : LPMLNTransformer) : Prop :=
  same_session s s' /\
  (traversal_state s -> traversal_state s') /\
  ((exists g, global_variables s = GlobalsList g) ->
   exists g', global_variables s' = GlobalsList g').

(** The exception a weight argument raises when it is neither a number
    nor a string [eval] and [float] accept. *)
Definition malformed_weight {R : Runtime} (sym : Symbol) : option PyError :=
  match sym with
  | Number _ => None
  | String str =>
      match eval_float str with
      | Err e => Some e
      | Ok _ => None
      end
  | _ => Some RuntimeError
  end.

(** The weight after a piece of the traversal that reached the theory
    atoms [reached]: as before when there is none, overwritten
    otherwise. *)
Definition weight_after (reached : list AST) (before after : PyWeight) : Prop :=
  (reached = [] /\ after = before) \/
  (reached <> [] /\ after <> WeightStr "alpha").

(** [{a; b} = 1], a choice with a right guard. *)
Definition bounded_choice_head : AST :=
  Aggregate 1 None
            [ConditionalLiteral 1 (lit_ 1 "a") [];
             ConditionalLiteral 2 (lit_ 2 "b") []]
            (Some (Node "AggregateGuard" 3 [SymbolicTerm 3 (Number 1)])).

(** [&random(a).] *)
Definition random_head : AST := annotation_ 1 "random" [const_ 2 "a"].

(** The weight a weight-bearing annotation stands for, in the words of
    its three encodings: [weight] over a number is that number and over
    a string the value of the string, [log] is the logarithm of the value
    of its string, [problog] the logarithm of the odds of that value;
    each is scaled by [calculate_weight]. *)
Definition stored_weight {R : Runtime} (name : string) (sym : Symbol)
           (power : Z) (w : PyWeight) : Prop :=
  (name = "weight" /\
   exists k, sym = Number k /\
             w = WeightSymbol (calculate_weight (PyInt k) power)) \/
  (name = "weight" /\
   exists str x, sym = String str /\ eval_float str = Ok x /\
                 w = WeightSymbol (calculate_weight (PyFloatValue x) power)) \/
  (name = "log" /\
   exists str x y, sym = String str /\ eval_float str = Ok x /\
                   math_log x = Ok y /\
                   w = WeightSymbol (calculate_weight (PyFloatValue y) power)) \/
  (name = "problog" /\
   exists str p q y, sym = String str /\ eval_float str = Ok p /\
                     odds p = Ok q /\ math_log q = Ok y /\
                     w = WeightSymbol (calculate_weight (PyFloatValue y) power)).

(** The weight after a piece of the traversal that reached the theory
    atoms [reached]: as before when there is none, and otherwise what
    the last of them leaves, in a state with the power of ten of the
    session. *)
Definition written_last {R : Runtime} (reached : list AST)
           (s s' : LPMLNTransformer) : Prop :=
  (reached = [] /\ weight s' = weight s) \/
  (exists pre atom st a' st',
      reached = pre ++ [atom] /\
      power_of_ten st = power_of_ten s /\
      visit_TheoryAtom atom st = Ok (a', st') /\
      weight s' = weight st').

(** ** Vocabulary of the further properties *)

Definition is_Rule (a : AST) : bool :=
  match a with Rule _ _ _ => true | _ => false end.

Definition is_Minimize (a : AST) : bool :=
  match a with Minimize _ _ _ _ _ => true | _ => false end.

(** The rules the P-log converter is asked for under a theory type. *)
Definition plog_conversion {R : Runtime} (name : string) (head : AST)
           (body : list AST) : list AST :=
  if String.eqb name "random" then convert_random head body
  else if String.eqb name "pr" then convert_pr head body
  else convert_obs_do head.

(** The literal the two-solve-calls mode puts before the body of a weak
    constraint of priority [priority]. *)
Definition sentinel {R : Runtime} (self : LPMLNTransformer) (loc : Location)
           (priority : AST) : list AST :=
  if two_solve_calls self && String.eqb (ast_str priority) "0"
  then [ext_helper_literal loc] else [].

(** * Properties *)

Unset Implicit Arguments.
Arguments visit_Variable : simpl never.
Arguments visit_TheoryAtom : simpl never.

(** One step of a [do] chain that ended in [Ok]. *)
Ltac bind_ok H :=
  match type of H with
  | bindR ?r _ = Ok _ =>
      let E := fresh "E" in
      destruct r as [[? ?]|?] eqn:E; cbn [bindR] in H; [|discriminate H]
  end.

Section EncoderProperties.
Context {R : Runtime}.

(** ** The weak-constraint parameters *)

Lemma constraint_parameters_alpha (loc : Location) (s : LPMLNTransformer)
      (g : list AST) :
  weight s = WeightStr "alpha" ->
  global_variables s = GlobalsList g ->
  _get_constraint_parameters loc s =
  Ok ((SymbolicTerm loc (Number (rule_idx s)),
       SymbolicTerm loc (Number 1),
       SymbolicTerm loc (Number 1)),
      set_weight (WeightTerm (SymbolicTerm loc (String "alpha")))
        (set_global_variables (GlobalsTerm (Function loc "" g false)) s)).
Proof.
  intros Hw Hg. unfold _get_constraint_parameters.
  rewrite Hg. cbn. rewrite Hw. reflexivity.
Qed.

Lemma constraint_parameters_symbol (loc : Location) (s : LPMLNTransformer)
      (g : list AST) (w : Symbol) :
  weight s = WeightSymbol w ->
  global_variables s = GlobalsList g ->
  _get_constraint_parameters loc s =
  Ok ((SymbolicTerm loc (Number (rule_idx s)),
       SymbolicTerm loc w,
       SymbolicTerm loc (Number 0)),
      set_global_variables (GlobalsTerm (Function loc "" g false)) s).
Proof.
  intros Hw Hg. unfold _get_constraint_parameters.
  rewrite Hg. cbn. rewrite Hw. reflexivity.
Qed.

(** Whenever the parameters are returned, the state holds the weight as
    the term ["alpha"] or as the symbol it was and the variables as one
    term, the index term carries the rule index, and the session fields
    are untouched. *)
Lemma constraint_parameters_post (loc : Location) (s s1 : LPMLNTransformer)
      (idx cw prio : AST) :
  _get_constraint_parameters loc s = Ok ((idx, cw, prio), s1) ->
  idx = SymbolicTerm loc (Number (rule_idx s)) /\
  (exists g, global_variables s = GlobalsList g /\
             global_variables s1 = GlobalsTerm (Function loc "" g false)) /\
  (exists w, weight s1 = w /\
     ((weight_is_alpha (weight s) = true /\
       w = WeightTerm (SymbolicTerm loc (String "alpha")) /\
       prio = SymbolicTerm loc (Number 1)) \/
      (exists sym, weight s = WeightSymbol sym /\ w = WeightSymbol sym /\
                   prio = SymbolicTerm loc (Number 0)))) /\
  same_session s s1.
Proof.
  unfold _get_constraint_parameters. intros H.
  destruct (global_variables s) as [g|t] eqn:Hg; cbn in H; [|discriminate].
  destruct (weight_is_alpha (weight s)) eqn:Ha.
  - inversion H; subst; clear H. cbn. repeat split.
    + exists g; split; reflexivity.
    + eexists; split; [reflexivity|]. left. repeat split.
  - destruct (weight s) as [t|sym|t] eqn:Hw; cbn in H; try discriminate.
    inversion H; subst; clear H. cbn. repeat split.
    + exists g; split; reflexivity.
    + eexists; split; [reflexivity|]. right.
      exists sym. repeat split; assumption.
Qed.


Lemma encoder_ready_parameters (loc : Location) (s : LPMLNTransformer) :
  encoder_ready s ->
  exists idx cw prio s1,
    _get_constraint_parameters loc s = Ok ((idx, cw, prio), s1).
Proof.
  intros [[Hw|[sym Hw]] [g Hg]].
  - rewrite (constraint_parameters_alpha loc _ _ Hw Hg). eauto.
  - rewrite (constraint_parameters_symbol loc _ _ _ Hw Hg). eauto.
Qed.

Lemma unsat_atoms_after_parameters (loc : Location) (idx w g : AST)
      (s1 : LPMLNTransformer) :
  weight_node (weight s1) = Ok w ->
  global_variables s1 = GlobalsTerm g ->
  _get_unsat_atoms loc idx s1 =
  Ok (Literal loc NoSign (SymbolicAtom (Function loc "unsat" [idx; w; g] false)),
      Literal loc Negation (SymbolicAtom (Function loc "unsat" [idx; w; g] false))).
Proof.
  intros Hw Hg. unfold _get_unsat_atoms. rewrite Hw, Hg. reflexivity.
Qed.

Lemma encoded_head_cases (head : AST) :
  encoded_head head = true ->
  (exists l sg atom, head = Literal l sg atom) \/
  (exists l lg els rg, head = Aggregate l lg els rg /\
                       (lg <> None \/ rg <> None)).
Proof.
  destruct head; cbn; try discriminate.
  - intros _. left. eauto.
  - intros H. right. do 4 eexists. split; [reflexivity|].
    destruct left_guard; [left; discriminate|].
    destruct right_guard; [right; discriminate|discriminate].
Qed.

(** The three rules of the unsat branch, from the parameters. *)
Lemma convert_rule_unsat
      (head : AST) (body : list AST) (s s1 : LPMLNTransformer)
      (loc : Location) (idx cw prio w g : AST) :
  use_unsat s = true ->
  encoded_head head = true ->
  ast_location head = Ok loc ->
  _get_constraint_parameters loc s = Ok ((idx, cw, prio), s1) ->
  weight_node (weight s1) = Ok w ->
  global_variables s1 = GlobalsTerm g ->
  _convert_rule head body s =
  Ok ([Rule loc (Literal loc NoSign
                   (SymbolicAtom (Function loc "unsat" [idx; w; g] false)))
            (negated_head loc head :: body);
       Rule loc head
            (Literal loc Negation
               (SymbolicAtom (Function loc "unsat" [idx; w; g] false))
             :: body);
       Minimize loc cw prio [idx; g]
                [Literal loc NoSign
                   (SymbolicAtom (Function loc "unsat" [idx; w; g] false))]],
      s1).
Proof.
  intros Hu Hh Hloc Hp Hw Hg1.
  assert (use_unsat s1 = true) as Hu1.
  { destruct (constraint_parameters_post _ _ _ _ _ _ Hp)
      as (_ & _ & _ & (_ & _ & _ & E & _)). congruence. }
  unfold _convert_rule. rewrite Hloc. cbn. rewrite Hp. cbn.
  destruct (encoded_head_cases _ Hh)
    as [(l & sg & atom & ->)|(l & lg & els & rg & -> & Hguard)].
  - cbn. rewrite Hg1. cbn. rewrite Hu1.
    erewrite unsat_atoms_after_parameters by eassumption. reflexivity.
  - destruct lg, rg; cbn; try (destruct Hguard; congruence);
      rewrite Hg1; cbn; rewrite Hu1;
      erewrite unsat_atoms_after_parameters by eassumption; reflexivity.
Qed.

(** An aggregate head without guards: the rule is rebuilt as it is, in
    either encoding. *)
Lemma convert_rule_unguarded
      (l : Location) (els body : list AST) (s s1 : LPMLNTransformer)
      (idx cw prio : AST) :
  _get_constraint_parameters l s = Ok ((idx, cw, prio), s1) ->
  _convert_rule (Aggregate l None els None) body s =
  Ok ([Rule l (Aggregate l None els None) body], s1).
Proof.
  intros Hp. unfold _convert_rule. cbn. rewrite Hp. reflexivity.
Qed.

(** Any other head has no [atom]: the encoder raises. *)
Lemma convert_rule_no_atom (head : AST) (body : list AST) (s : LPMLNTransformer) :
  encoded_head head = false ->
  (forall l els, head <> Aggregate l None els None) ->
  exists e, _convert_rule head body s = Err e.
Proof.
  intros Hh Hagg. unfold _convert_rule.
  destruct (ast_location head) as [loc|e] eqn:Hloc; cbn; [|eauto].
  destruct (_get_constraint_parameters loc s) as [[[[idx cw] prio] s1]|e];
    cbn; [|eauto].
  destruct head; cbn in *; try discriminate; eauto.
  destruct left_guard, right_guard; try discriminate.
  exfalso. eapply Hagg. reflexivity.
Qed.

(** The unsat branch on a soft rule: the recorded weight is a bare
    symbol, and the argument list of the unsat atom takes nodes only. *)
Lemma convert_rule_unsat_soft
      (head : AST) (body : list AST) (s s1 : LPMLNTransformer)
      (loc : Location) (idx cw prio : AST) (sym : Symbol) :
  use_unsat s = true ->
  encoded_head head = true ->
  ast_location head = Ok loc ->
  _get_constraint_parameters loc s = Ok ((idx, cw, prio), s1) ->
  weight s = WeightSymbol sym ->
  _convert_rule head body s = Err TypeError.
Proof.
  intros Hu Hh Hloc Hp Hw.
  destruct (constraint_parameters_post _ _ _ _ _ _ Hp)
    as (_ & (g0 & _ & Hg1) & (w & Hw1 & Hcase) & (_ & _ & _ & Hu1 & _)).
  assert (weight s1 = WeightSymbol sym) as Hws.
  { destruct Hcase as [(Ha & _)|(sym' & Hs & -> & _)].
    - rewrite Hw in Ha. discriminate.
    - congruence. }
  unfold _convert_rule. rewrite Hloc. cbn. rewrite Hp. cbn.
  unfold _get_unsat_atoms.
  destruct (encoded_head_cases _ Hh)
    as [(l & sg & atom & ->)|(l & lg & els & rg & -> & Hguard)].
  - cbn. rewrite Hg1. cbn. rewrite Hu1, Hu, Hws. reflexivity.
  - destruct lg, rg; cbn; try (destruct Hguard; congruence);
      rewrite Hg1; cbn; rewrite Hu1, Hu, Hws; reflexivity.
Qed.

(** ** The unsat encoding *)

(** C1: with the unsat-atom encoding enabled and a head that is a
    literal or a guarded aggregate, a hard rule (weight ['alpha']) is
    encoded as the three rules of the claim, in its order:
    [unsat(idx, "alpha", globals)] with the negated head before the body,
    the head with the negated unsat atom before the body, and the weak
    constraint over the unsat literal with the computed weight and
    priority, keyed by the index and the globals term.  For a soft rule
    the encoder returns no rule: the recorded weight goes into the
    argument list of the unsat atom as the bare symbol, and the encoder
    raises [TypeError]. *)
Theorem unsat_encoding_by_weight
        (head : AST) (body : list AST) (s : LPMLNTransformer)
        (vars : list AST) :
  use_unsat s = true ->
  encoded_head head = true ->
  global_variables s = GlobalsList vars ->
  (weight s = WeightStr "alpha" ->
   exists loc s1,
     ast_location head = Ok loc /\
     let idx := SymbolicTerm loc (Number (rule_idx s)) in
     let g := Function loc "" vars false in
     let unsat_atom :=
       SymbolicAtom
         (Function loc "unsat" [idx; SymbolicTerm loc (String "alpha"); g]
                   false) in
     let unsat := Literal loc NoSign unsat_atom in
     let not_unsat := Literal loc Negation unsat_atom in
     _convert_rule head body s =
     Ok ([Rule loc unsat (negated_head loc head :: body);
          Rule loc head (not_unsat :: body);
          Minimize loc (SymbolicTerm loc (Number 1))
                   (SymbolicTerm loc (Number 1)) [idx; g] [unsat]], s1)) /\
  (forall sym, weight s = WeightSymbol sym ->
               _convert_rule head body s = Err TypeError).
Proof.
  intros Hu Hh Hg.
  assert (exists loc, ast_location head = Ok loc) as [loc Hloc].
  { destruct head; cbn in Hh; try discriminate; cbn; eauto. }
  split.
  - intros Hw. exists loc. eexists. split; [exact Hloc|]. cbv zeta.
    eapply convert_rule_unsat;
      [exact Hu|exact Hh|exact Hloc
      |apply constraint_parameters_alpha; eassumption
      |reflexivity|reflexivity].
  - intros sym Hw.
    eapply convert_rule_unsat_soft;
      [exact Hu|exact Hh|exact Hloc
      |apply constraint_parameters_symbol; eassumption
      |exact Hw].
Qed.

End EncoderProperties.

Section CompactEncoding.
Context {R : Runtime}.

Lemma weight_is_alpha_true (w : PyWeight) :
  weight_is_alpha w = true <-> w = WeightStr "alpha".
Proof.
  destruct w; cbn; try (split; [discriminate|congruence]).
  rewrite String.eqb_eq. split; congruence.
Qed.

(** The sentinel test of the compact branch, in terms of the recorded
    weight: the priority prints as [0] exactly for a soft rule. *)
Lemma soft_priority_test (loc : Location) (s s1 : LPMLNTransformer)
      (idx cw prio : AST) :
  ast_str (SymbolicTerm loc (Number 0)) = "0" ->
  ast_str (SymbolicTerm loc (Number 1)) <> "0" ->
  _get_constraint_parameters loc s = Ok ((idx, cw, prio), s1) ->
  String.eqb (ast_str prio) "0" = negb (weight_is_alpha (weight s)).
Proof.
  intros H0 H1 Hp.
  destruct (constraint_parameters_post _ _ _ _ _ _ Hp)
    as (_ & _ & (w & _ & [(Ha & _ & ->)|(sym & Hs & _ & ->)]) & _).
  - rewrite Ha. cbn. apply String.eqb_neq. exact H1.
  - rewrite Hs. cbn. apply String.eqb_eq. exact H0.
Qed.

(** ** The compact encoding *)

(** C2, as amended: in the compact encoding a head that is a literal over
    an atom other than [#false] gives two rules, the choice rule
    [{Head} :- Body] and a weak constraint over the negated head and the
    body; a head over [#false] gives the weak constraint over the body
    alone.  The weak constraint carries the computed weight and priority
    and the key [(idx, globals)].  In two-solve-calls mode the weak
    constraint of a soft rule (any weight but ['alpha']) has the
    [ext_helper] literal in front of that body. *)
Theorem compact_encoding_literal_head
        (l : Location) (sg : Sign) (atom : AST) (body : list AST)
        (s : LPMLNTransformer) :
  use_unsat s = false ->
  encoder_ready s ->
  ast_str (SymbolicTerm l (Number 0)) = "0" ->
  ast_str (SymbolicTerm l (Number 1)) <> "0" ->
  exists idx cw prio s1 g,
    _get_constraint_parameters l s = Ok ((idx, cw, prio), s1) /\
    global_variables s1 = GlobalsTerm g /\
    let head := Literal l sg atom in
    let sentinel :=
      if two_solve_calls s && negb (weight_is_alpha (weight s))
      then [ext_helper_literal l] else [] in
    (atom = BooleanConstant false ->
     _convert_rule head body s =
     Ok ([Minimize l cw prio [idx; g] (sentinel ++ body)], s1)) /\
    (atom <> BooleanConstant false ->
     _convert_rule head body s =
     Ok ([Rule l (Aggregate l None [ConditionalLiteral l head []] None) body;
          Minimize l cw prio [idx; g]
                   (sentinel ++ Literal l Negation atom :: body)], s1)).
Proof.
  intros Hu Hr H0 H1.
  destruct (encoder_ready_parameters l _ Hr) as (idx & cw & prio & s1 & Hp).
  pose proof (soft_priority_test _ _ _ _ _ _ H0 H1 Hp) as Hsoft.
  destruct (constraint_parameters_post _ _ _ _ _ _ Hp)
    as (_ & (g0 & _ & Hg1) & _ & Hsame).
  destruct Hsame as (_ & _ & _ & Hu1 & Ht1 & _).
  exists idx, cw, prio, s1, (Function l "" g0 false).
  split; [exact Hp|]. split; [exact Hg1|]. cbv zeta.
  split; intros Hatom; unfold _convert_rule; cbn; rewrite Hp; cbn;
    rewrite Hg1; cbn; rewrite Hu1, Hu, Ht1, Hsoft.
  - subst atom. destruct (two_solve_calls s && _); reflexivity.
  - destruct atom as [| | |v| | | | | | | |];
      try (destruct (two_solve_calls s && _); reflexivity).
    destruct v; [|congruence].
    destruct (two_solve_calls s && _); reflexivity.
Qed.

End CompactEncoding.

Section TwoSolveCalls.
Context {R : Runtime}.

Lemma constraint_parameters_flag (b : bool) (loc : Location)
      (s : LPMLNTransformer) :
  _get_constraint_parameters loc (set_two_solve_calls b s) =
  match _get_constraint_parameters loc s with
  | Ok (p, s1) => Ok (p, set_two_solve_calls b s1)
  | Err e => Err e
  end.
Proof.
  unfold _get_constraint_parameters. cbn.
  destruct (global_variables s); cbn; [|reflexivity].
  destruct (weight_is_alpha (weight s)); [reflexivity|].
  destruct (weight s); reflexivity.
Qed.

(** The unsat branch never reads the flag. *)
Lemma convert_rule_unsat_flag (b : bool) (head : AST) (body : list AST)
      (s : LPMLNTransformer) :
  use_unsat s = true ->
  rules_of (_convert_rule head body (set_two_solve_calls b s)) =
  rules_of (_convert_rule head body s).
Proof.
  intros Hu. unfold _convert_rule.
  destruct (ast_location head) as [loc|e]; cbn; [|reflexivity].
  rewrite constraint_parameters_flag.
  destruct (_get_constraint_parameters loc s)
    as [[[[idx cw] prio] s1]|e] eqn:Hp; cbn; [|reflexivity].
  assert (use_unsat s1 = true) as Hu1.
  { destruct (constraint_parameters_post _ _ _ _ _ _ Hp)
      as (_ & _ & _ & (_ & _ & _ & E & _)). congruence. }
  rewrite Hu1.
  change (_get_unsat_atoms loc idx (set_two_solve_calls b s1))
    with (_get_unsat_atoms loc idx s1).
  destruct (match head with Aggregate _ None _ None => true | _ => false end);
    [reflexivity|].
  destruct (match head with
            | Aggregate _ _ _ _ => Ok (Literal loc Negation head)
            | _ => do atom <- ast_atom head; Ok (Literal loc Negation atom)
            end) as [not_head|e]; cbn; [|reflexivity].
  destruct (globals_node (global_variables s1)); cbn; [|reflexivity].
  destruct (_get_unsat_atoms loc idx s1) as [[u nu]|e]; reflexivity.
Qed.

(** Where the literals of the emitted rules come from. *)
Lemma convert_rule_unsat_bodies (head : AST) (body rules : list AST)
      (s s' : LPMLNTransformer) :
  use_unsat s = true ->
  _convert_rule head body s = Ok (rules, s') ->
  forall r l, In r rules -> In l (statement_literals r) ->
              is_ext_helper l = true -> In l (head :: body).
Proof.
  intros Hu Hc r l Hr Hl He.
  destruct (encoded_head head) eqn:Hh.
  - assert (exists loc, ast_location head = Ok loc) as [loc Hloc].
    { destruct head; cbn in Hh; try discriminate; cbn; eauto. }
    destruct (_get_constraint_parameters loc s)
      as [[[[idx cw] prio] s1]|e] eqn:Hp.
    + destruct (constraint_parameters_post _ _ _ _ _ _ Hp)
        as (_ & (g0 & _ & Hg1) & (w & Hw & Hcase) & _).
      destruct Hcase as [(_ & -> & _)|(sym & Hsym & _)];
        [|rewrite (convert_rule_unsat_soft head body s s1 loc idx cw prio sym
                     Hu Hh Hloc Hp Hsym) in Hc; discriminate Hc].
      assert (weight_node (weight s1)
              = Ok (SymbolicTerm loc (String "alpha"))) as Hwn
          by (rewrite Hw; reflexivity).
      rewrite (convert_rule_unsat head body s s1 loc idx cw prio _ _
                 Hu Hh Hloc Hp Hwn Hg1) in Hc.
      inversion Hc; subst; clear Hc.
      destruct Hr as [<-|[<-|[<-|[]]]]; cbn in Hl.
      * destruct Hl as [<-|[<-|Hl]]; [discriminate| |right; exact Hl].
        destruct head; cbn in He; discriminate.
      * destruct Hl as [<-|[<-|Hl]];
          [left; reflexivity|discriminate|right; exact Hl].
      * destruct Hl as [<-|[]]. discriminate.
    + unfold _convert_rule in Hc. rewrite Hloc in Hc. cbn in Hc.
      rewrite Hp in Hc. discriminate.
  - destruct head; try (destruct (convert_rule_no_atom _ body s Hh) as [e He'];
      [intros ? ? ?; discriminate|congruence]).
    destruct left_guard, right_guard; try discriminate.
    unfold _convert_rule in Hc. cbn in Hc.
    destruct (_get_constraint_parameters location s)
      as [[[[idx cw] prio] s1]|e]; cbn in Hc; [|discriminate].
    inversion Hc; subst; clear Hc.
    destruct Hr as [<-|[]]. exact Hl.
Qed.

(** ** The two-solve-calls flag and the unsat encoding *)

(** C10, as amended: with the unsat-atom encoding enabled the
    two-solve-calls flag has no effect on the rules the encoder returns,
    and the encoder puts no [ext_helper] literal into them: a literal of
    an emitted rule that has the shape of the sentinel is the head or a
    body literal the encoder was given. *)
Theorem unsat_ignores_two_solve_calls
        (head : AST) (body : list AST) (s : LPMLNTransformer) :
  use_unsat s = true ->
  rules_of (_convert_rule head body (set_two_solve_calls true s)) =
  rules_of (_convert_rule head body (set_two_solve_calls false s)) /\
  forall rules s',
    _convert_rule head body s = Ok (rules, s') ->
    forall r l, In r rules -> In l (statement_literals r) ->
                is_ext_helper l = true -> In l (head :: body).
Proof.
  intros Hu. split.
  - rewrite !convert_rule_unsat_flag by exact Hu. reflexivity.
  - intros rules s' Hc. eapply convert_rule_unsat_bodies; eassumption.
Qed.

End TwoSolveCalls.

Section TraversalProperties.
Context {R : Runtime}.

(** *** A relation kept by both handlers is kept by the traversal *)

Section Kept.
Variable Q : LPMLNTransformer -> LPMLNTransformer -> Prop.
Hypothesis Q_refl : forall s, Q s s.
Hypothesis Q_trans : forall s1 s2 s3, Q s1 s2 -> Q s2 s3 -> Q s1 s3.
Hypothesis Q_Variable :
  forall v s v' s', visit_Variable v s = Ok (v', s') -> Q s s'.
Hypothesis Q_TheoryAtom :
  forall a s a' s', visit_TheoryAtom a s = Ok (a', s') -> Q s s'.

Let kept (a : AST) : Prop :=
  forall s a' s', visit a s = Ok (a', s') -> Q s s'.

Lemma kept_sequence (l : list AST) :
  Forall kept l ->
  forall s l' s', visit_sequence visit l s = Ok (l', s') -> Q s s'.
Proof.
  induction 1 as [|x l Hx _ IH]; intros s l' s' H; cbn in H.
  - inversion H; subst. apply Q_refl.
  - bind_ok H. bind_ok H. inversion H; subst; clear H.
    eapply Q_trans; [eapply Hx; eassumption|eapply IH; eassumption].
Qed.

Lemma kept_optional (o : option AST) :
  (forall g, o = Some g -> kept g) ->
  forall s o' s', visit_optional visit o s = Ok (o', s') -> Q s s'.
Proof.
  intros Ho s o' s' H. destruct o as [g|]; cbn in H.
  - bind_ok H. inversion H; subst; clear H.
    eapply (Ho g eq_refl); eassumption.
  - inversion H; subst. apply Q_refl.
Qed.

Lemma visit_kept (a : AST) : kept a.
Proof.
  induction a using traversal_ind; intros st a' st' Hv; cbn in Hv;
    try discriminate Hv;
    try (inversion Hv; subst; apply Q_refl).
  - eapply Q_Variable; eassumption.
  - bind_ok Hv. inversion Hv; subst; clear Hv.
    eapply kept_sequence; eassumption.
  - bind_ok Hv. inversion Hv; subst; clear Hv. eapply IHa; eassumption.
  - bind_ok Hv. inversion Hv; subst; clear Hv. eapply IHa; eassumption.
  - bind_ok Hv. bind_ok Hv. inversion Hv; subst; clear Hv.
    eapply Q_trans; [eapply IHa; eassumption|].
    eapply kept_sequence; eassumption.
  - bind_ok Hv. bind_ok Hv. bind_ok Hv. inversion Hv; subst; clear Hv.
    eapply Q_trans; [eapply kept_optional; [|eassumption]; eassumption|].
    eapply Q_trans; [eapply kept_sequence; eassumption|].
    eapply kept_optional; [|eassumption]; eassumption.
  - eapply Q_TheoryAtom; eassumption.
  - bind_ok Hv. inversion Hv; subst; clear Hv.
    eapply kept_sequence; eassumption.
Qed.

Lemma visit_sequence_kept (l : list AST) :
  forall s l' s', visit_sequence visit l s = Ok (l', s') -> Q s s'.
Proof.
  apply kept_sequence. apply Forall_forall. intros x _. apply visit_kept.
Qed.
End Kept.


(** *** The two handlers *)

Lemma same_session_refl (s : LPMLNTransformer) : same_session s s.
Proof. repeat split. Qed.

Lemma same_session_trans (s1 s2 s3 : LPMLNTransformer) :
  same_session s1 s2 -> same_session s2 s3 -> same_session s1 s3.
Proof.
  unfold same_session. intros (A1 & A2 & A3 & A4 & A5 & A6 & A7)
                              (B1 & B2 & B3 & B4 & B5 & B6 & B7).
  repeat split; congruence.
Qed.

Lemma visit_Variable_spec (v v' : AST) (s s' : LPMLNTransformer) :
  visit_Variable v s = Ok (v', s') ->
  v' = v /\
  (exists g, global_variables s = GlobalsList g /\
             global_variables s' = GlobalsList (collect_step g v)) /\
  weight s' = weight s /\ theory_type s' = theory_type s /\
  same_session s s'.
Proof.
  unfold visit_Variable, collect_step. intros H.
  destruct (global_variables s) as [g|t] eqn:Hg; [|discriminate].
  destruct (negb (ast_in v g)) eqn:Hin; inversion H; subst; clear H; cbn.
  - split; [reflexivity|].
    split; [exists g; split; [reflexivity|rewrite Hin; reflexivity]|].
    repeat split.
  - split; [reflexivity|].
    split; [exists g; split; [reflexivity|rewrite Hin; exact Hg]|].
    repeat split.
Qed.

Lemma plog_name_special (name : string) :
  name_in name plog_names = true ->
  existsb (String.eqb name) special_names = true.
Proof.
  unfold name_in, plog_names, special_names. cbn.
  destruct (name =? "query")%string, (name =? "random")%string,
    (name =? "pr")%string, (name =? "obs")%string, (name =? "do")%string;
    cbn; congruence.
Qed.

Lemma evidence_name_special (name : string) :
  (name =? "evidence")%string = true ->
  existsb (String.eqb name) special_names = true.
Proof.
  intros H. unfold special_names. cbn. rewrite H.
  rewrite !orb_true_r. reflexivity.
Qed.

(** A theory atom leaves the variables alone; it ends with the weight
    reset and a theory type recorded, or with a scaled weight stored. *)
Lemma visit_TheoryAtom_spec (a a' : AST) (s s' : LPMLNTransformer) :
  visit_TheoryAtom a s = Ok (a', s') ->
  global_variables s' = global_variables s /\
  same_session s s' /\
  ((weight s' = WeightStr "" /\
    existsb (String.eqb (theory_type s')) special_names = true) \/
   (exists n, weight s' = WeightSymbol (calculate_weight n (power_of_ten s)) /\
              theory_type s' = theory_type s)).
Proof.
  unfold visit_TheoryAtom. intros H.
  destruct a; try discriminate H.
  destruct (ast_name a) as [name|e]; cbn [bindR] in H; [|discriminate H].
  destruct (name_in name plog_names) eqn:Hp.
  { inversion H; subst; clear H. cbn.
    split; [reflexivity|]. split; [repeat split|].
    left. split; [reflexivity|]. apply plog_name_special. exact Hp. }
  destruct (name =? "evidence")%string eqn:He.
  { destruct (ast_arguments a) as [args|e]; cbn [bindR] in H; [|discriminate H].
    destruct (item0 args) as [ev|e]; cbn [bindR] in H; [|discriminate H].
    inversion H; subst; clear H. cbn.
    split; [reflexivity|]. split; [repeat split|].
    left. split; [reflexivity|]. apply evidence_name_special. exact He. }
  destruct (ast_arguments a) as [args|e]; cbn [bindR] in H; [|discriminate H].
  destruct (item0 args) as [arg0|e]; cbn [bindR] in H; [|discriminate H].
  destruct (ast_symbol arg0) as [sym|e]; cbn [bindR] in H; [|discriminate H].
  destruct (annotation_weight name sym) as [n|e]; cbn [bindR] in H; [|discriminate H].
  inversion H; subst; clear H. cbn.
  split; [reflexivity|]. split; [repeat split|].
  right. exists n. split; reflexivity.
Qed.

(** *** What the traversal keeps *)

Lemma traversal_state_theory_type (s : LPMLNTransformer) :
  traversal_state s ->
  theory_type s = "" \/
  existsb (String.eqb (theory_type s)) special_names = true.
Proof.
  intros [Hw Ht|Hw Ht|w Hw Ht]; auto.
Qed.

Lemma traversal_kept_refl (s : LPMLNTransformer) : traversal_kept s s.
Proof. split; [apply same_session_refl|]. split; auto. Qed.

Lemma traversal_kept_trans (s1 s2 s3 : LPMLNTransformer) :
  traversal_kept s1 s2 -> traversal_kept s2 s3 -> traversal_kept s1 s3.
Proof.
  intros (A & B & C) (A' & B' & C').
  split; [eapply same_session_trans; eassumption|]. split; auto.
Qed.

Lemma traversal_kept_Variable (v : AST) (s : LPMLNTransformer) (v' : AST)
      (s' : LPMLNTransformer) :
  visit_Variable v s = Ok (v', s') -> traversal_kept s s'.
Proof.
  intros H. destruct (visit_Variable_spec _ _ _ _ H)
    as (_ & (g & Hg & Hg') & Hw & Ht & Hs).
  split; [exact Hs|]. split; [|eauto].
  intros [A B|A B|w A B].
  - apply ts_alpha; congruence.
  - apply ts_reset; congruence.
  - apply ts_weight with w; [congruence|]. rewrite Ht. exact B.
Qed.

Lemma traversal_kept_TheoryAtom (a : AST) (s : LPMLNTransformer) (a' : AST)
      (s' : LPMLNTransformer) :
  visit_TheoryAtom a s = Ok (a', s') -> traversal_kept s s'.
Proof.
  intros H. destruct (visit_TheoryAtom_spec _ _ _ _ H)
    as (Hg & Hs & Hcase).
  split; [exact Hs|]. split.
  - intros Hts. destruct Hcase as [(Hw & Ht)|(n & Hw & Ht)].
    + apply ts_reset; assumption.
    + eapply ts_weight; [exact Hw|]. rewrite Ht.
      apply traversal_state_theory_type. exact Hts.
  - rewrite Hg. auto.
Qed.

Lemma visit_traversal_kept (a : AST) (s : LPMLNTransformer) (a' : AST)
      (s' : LPMLNTransformer) :
  visit a s = Ok (a', s') -> traversal_kept s s'.
Proof.
  apply (visit_kept traversal_kept traversal_kept_refl traversal_kept_trans
           traversal_kept_Variable traversal_kept_TheoryAtom).
Qed.

Lemma visit_sequence_traversal_kept (l : list AST) (s : LPMLNTransformer)
      (l' : list AST) (s' : LPMLNTransformer) :
  visit_sequence visit l s = Ok (l', s') -> traversal_kept s s'.
Proof.
  apply (visit_sequence_kept traversal_kept traversal_kept_refl
           traversal_kept_trans traversal_kept_Variable
           traversal_kept_TheoryAtom).
Qed.

End TraversalProperties.

Section Reached.
Context {R : Runtime}.

(** *** The variables a traversal collects *)

Lemma collect_app (g l1 l2 : list AST) :
  collect g (l1 ++ l2) = collect (collect g l1) l2.
Proof. unfold collect. apply fold_left_app. Qed.

Let collects (a : AST) : Prop :=
  forall s a' s' g,
    visit a s = Ok (a', s') -> global_variables s = GlobalsList g ->
    global_variables s' = GlobalsList (collect g (variables_of a)).

Lemma collects_sequence (l : list AST) :
  Forall collects l ->
  forall s l' s' g,
    visit_sequence visit l s = Ok (l', s') ->
    global_variables s = GlobalsList g ->
    global_variables s' = GlobalsList (collect g (flat_map variables_of l)).
Proof.
  induction 1 as [|x l Hx _ IH]; intros s l' s' g H Hg; cbn in H.
  - inversion H; subst. exact Hg.
  - bind_ok H. bind_ok H. inversion H; subst; clear H.
    cbn [flat_map]. rewrite collect_app.
    eapply IH; [eassumption|]. eapply Hx; eassumption.
Qed.

Lemma collects_optional (o : option AST) :
  (forall x, o = Some x -> collects x) ->
  forall s o' s' g,
    visit_optional visit o s = Ok (o', s') ->
    global_variables s = GlobalsList g ->
    global_variables s' =
    GlobalsList (collect g match o with Some x => variables_of x | None => [] end).
Proof.
  intros Ho s o' s' g H Hg. destruct o as [x|]; cbn in H.
  - bind_ok H. inversion H; subst; clear H.
    eapply (Ho x eq_refl); eassumption.
  - inversion H; subst. exact Hg.
Qed.

Lemma visit_collects (a : AST) : collects a.
Proof.
  induction a using traversal_ind; intros st a' st' gl Hv Hg; cbn in Hv;
    try discriminate Hv;
    try (inversion Hv; subst; exact Hg).
  - destruct (visit_Variable_spec _ _ _ _ Hv) as (_ & (g' & Hg1 & Hg2) & _).
    rewrite Hg in Hg1. inversion Hg1; subst. exact Hg2.
  - bind_ok Hv. inversion Hv; subst; clear Hv.
    eapply collects_sequence; eassumption.
  - bind_ok Hv. inversion Hv; subst; clear Hv. eapply IHa; eassumption.
  - bind_ok Hv. inversion Hv; subst; clear Hv. eapply IHa; eassumption.
  - bind_ok Hv. bind_ok Hv. inversion Hv; subst; clear Hv.
    cbn [variables_of]. rewrite collect_app.
    eapply collects_sequence; [eassumption|eassumption|].
    eapply IHa; eassumption.
  - bind_ok Hv. bind_ok Hv. bind_ok Hv. inversion Hv; subst; clear Hv.
    cbn [variables_of]. rewrite !collect_app.
    eapply collects_optional; [eassumption|eassumption|].
    eapply collects_sequence; [eassumption|eassumption|].
    eapply collects_optional; [|eassumption|eassumption]; eassumption.
  - destruct (visit_TheoryAtom_spec _ _ _ _ Hv) as (Hg' & _).
    cbn. rewrite Hg'. exact Hg.
  - bind_ok Hv. inversion Hv; subst; clear Hv.
    eapply collects_sequence; eassumption.
Qed.

Lemma visit_sequence_collects (l : list AST) (s : LPMLNTransformer)
      (l' : list AST) (s' : LPMLNTransformer) (g : list AST) :
  visit_sequence visit l s = Ok (l', s') ->
  global_variables s = GlobalsList g ->
  global_variables s' = GlobalsList (collect g (flat_map variables_of l)).
Proof.
  apply collects_sequence. apply Forall_forall. intros x _.
  apply visit_collects.
Qed.


(** *** Nodes without a theory atom *)

Let untouched (a : AST) : Prop :=
  annotations_of a = [] ->
  forall s a' s',
    visit a s = Ok (a', s') ->
    a' = a /\ weight s' = weight s /\ theory_type s' = theory_type s.

Lemma untouched_sequence (l : list AST) :
  Forall untouched l ->
  flat_map annotations_of l = [] ->
  forall s l' s',
    visit_sequence visit l s = Ok (l', s') ->
    l' = l /\ weight s' = weight s /\ theory_type s' = theory_type s.
Proof.
  induction 1 as [|x l Hx _ IH]; intros Hn s l' s' H; cbn in H.
  - inversion H; subst. auto.
  - cbn in Hn. apply app_eq_nil in Hn. destruct Hn as [Hn1 Hn2].
    bind_ok H. bind_ok H. inversion H; subst; clear H.
    destruct (Hx Hn1 _ _ _ E) as (-> & Hw & Ht).
    destruct (IH Hn2 _ _ _ E0) as (-> & Hw' & Ht').
    repeat split; congruence.
Qed.

Lemma untouched_optional (o : option AST) :
  (forall x, o = Some x -> untouched x) ->
  match o with Some x => annotations_of x | None => [] end = [] ->
  forall s o' s',
    visit_optional visit o s = Ok (o', s') ->
    o' = o /\ weight s' = weight s /\ theory_type s' = theory_type s.
Proof.
  intros Ho Hn s o' s' H. destruct o as [x|]; cbn in H.
  - bind_ok H. inversion H; subst; clear H.
    destruct (Ho x eq_refl Hn _ _ _ E) as (-> & Hw & Ht). auto.
  - inversion H; subst. auto.
Qed.

Lemma visit_untouched (a : AST) : untouched a.
Proof.
  induction a using traversal_ind; intros Hn st a' st' Hv; cbn in Hv;
    try discriminate Hv;
    try (inversion Hv; subst; auto; fail).
  - destruct (visit_Variable_spec _ _ _ _ Hv) as (-> & _ & Hw & Ht & _). auto.
  - bind_ok Hv. inversion Hv; subst; clear Hv.
    destruct (untouched_sequence _ H Hn _ _ _ E) as (-> & Hw & Ht). auto.
  - bind_ok Hv. inversion Hv; subst; clear Hv.
    destruct (IHa Hn _ _ _ E) as (-> & Hw & Ht). auto.
  - bind_ok Hv. inversion Hv; subst; clear Hv.
    destruct (IHa Hn _ _ _ E) as (-> & Hw & Ht). auto.
  - cbn in Hn. apply app_eq_nil in Hn. destruct Hn as [Hn1 Hn2].
    bind_ok Hv. bind_ok Hv. inversion Hv; subst; clear Hv.
    destruct (IHa Hn1 _ _ _ E) as (-> & Hw & Ht).
    destruct (untouched_sequence _ H Hn2 _ _ _ E0) as (-> & Hw' & Ht').
    repeat split; congruence.
  - cbn in Hn. apply app_eq_nil in Hn. destruct Hn as [Hn1 Hn2].
    apply app_eq_nil in Hn2. destruct Hn2 as [Hn2 Hn3].
    bind_ok Hv. bind_ok Hv. bind_ok Hv. inversion Hv; subst; clear Hv.
    destruct (untouched_optional _ H Hn1 _ _ _ E) as (-> & Hw & Ht).
    destruct (untouched_sequence _ H0 Hn2 _ _ _ E0) as (-> & Hw' & Ht').
    destruct (untouched_optional _ H1 Hn3 _ _ _ E1) as (-> & Hw'' & Ht'').
    repeat split; congruence.
  - discriminate Hn.
  - bind_ok Hv. inversion Hv; subst; clear Hv.
    destruct (untouched_sequence _ H Hn _ _ _ E) as (-> & Hw & Ht). auto.
Qed.

Lemma visit_sequence_untouched (l : list AST) :
  flat_map annotations_of l = [] ->
  forall s l' s',
    visit_sequence visit l s = Ok (l', s') ->
    l' = l /\ weight s' = weight s /\ theory_type s' = theory_type s.
Proof.
  apply untouched_sequence. apply Forall_forall. intros x _.
  apply visit_untouched.
Qed.

(** *** Plain nodes are traversed to the end *)

Let total (a : AST) : Prop :=
  plain a = true ->
  annotations_of a = [] /\
  forall s g, global_variables s = GlobalsList g ->
              exists s', visit a s = Ok (a, s').

Lemma total_sequence (l : list AST) :
  Forall total l ->
  forallb plain l = true ->
  flat_map annotations_of l = [] /\
  forall s g, global_variables s = GlobalsList g ->
              exists s', visit_sequence visit l s = Ok (l, s').
Proof.
  induction 1 as [|x l Hx _ IH]; intros Hp; cbn in Hp.
  - split; [reflexivity|]. intros s g Hg. eexists. reflexivity.
  - apply andb_true_iff in Hp. destruct Hp as [Hp1 Hp2].
    destruct (Hx Hp1) as [Hn1 Hv1]. destruct (IH Hp2) as [Hn2 Hv2].
    split; [cbn; rewrite Hn1, Hn2; reflexivity|].
    intros s g Hg. destruct (Hv1 s g Hg) as [s1 E1].
    destruct (visit_traversal_kept _ _ _ _ E1) as (_ & _ & [g1 Hg1]);
      [eauto|].
    destruct (Hv2 s1 g1 Hg1) as [s2 E2].
    exists s2. cbn. rewrite E1. cbn. rewrite E2. reflexivity.
Qed.

Lemma total_optional (o : option AST) :
  (forall x, o = Some x -> total x) ->
  match o with Some x => plain x | None => true end = true ->
  match o with Some x => annotations_of x | None => [] end = [] /\
  forall s g, global_variables s = GlobalsList g ->
              exists s', visit_optional visit o s = Ok (o, s').
Proof.
  intros Ho Hp. destruct o as [x|].
  - destruct (Ho x eq_refl Hp) as [Hn Hv]. split; [exact Hn|].
    intros s g Hg. destruct (Hv s g Hg) as [s1 E1].
    exists s1. cbn. rewrite E1. reflexivity.
  - split; [reflexivity|]. intros s g Hg. eexists. reflexivity.
Qed.

Lemma visit_optional_traversal_kept (o : option AST) (s : LPMLNTransformer)
      (o' : option AST) (s' : LPMLNTransformer) :
  visit_optional visit o s = Ok (o', s') -> traversal_kept s s'.
Proof.
  intros H. destruct o as [x|]; cbn in H.
  - bind_ok H. inversion H; subst; clear H.
    eapply visit_traversal_kept; eassumption.
  - inversion H; subst. apply traversal_kept_refl.
Qed.

Lemma visit_plain (a : AST) : total a.
Proof.
  induction a using traversal_ind; intros Hp; cbn in Hp;
    try discriminate Hp.
  - split; [reflexivity|]. intros st g Hg. cbn.
    unfold visit_Variable. rewrite Hg.
    destruct (negb (ast_in (Variable_ l n) g)); eexists; reflexivity.
  - split; [reflexivity|]. intros st g Hg. eexists; reflexivity.
  - destruct (total_sequence _ H Hp) as [Hn Hv]. split; [exact Hn|].
    intros st g Hg. destruct (Hv st g Hg) as [s1 E1].
    exists s1. cbn. rewrite E1. reflexivity.
  - split; [reflexivity|]. intros st g Hg. eexists; reflexivity.
  - destruct (IHa Hp) as [Hn Hv]. split; [exact Hn|].
    intros st g Hg. destruct (Hv st g Hg) as [s1 E1].
    exists s1. cbn. rewrite E1. reflexivity.
  - destruct (IHa Hp) as [Hn Hv]. split; [exact Hn|].
    intros st g Hg. destruct (Hv st g Hg) as [s1 E1].
    exists s1. cbn. rewrite E1. reflexivity.
  - apply andb_true_iff in Hp. destruct Hp as [Hp1 Hp2].
    destruct (IHa Hp1) as [Hn1 Hv1].
    destruct (total_sequence _ H Hp2) as [Hn2 Hv2].
    split; [cbn; rewrite Hn1, Hn2; reflexivity|].
    intros st g Hg. destruct (Hv1 st g Hg) as [s1 E1].
    destruct (visit_traversal_kept _ _ _ _ E1) as (_ & _ & [g1 Hg1]);
      [eauto|].
    destruct (Hv2 s1 g1 Hg1) as [s2 E2].
    exists s2. cbn. rewrite E1. cbn. rewrite E2. reflexivity.
  - apply andb_true_iff in Hp. destruct Hp as [Hp Hp3].
    apply andb_true_iff in Hp. destruct Hp as [Hp1 Hp2].
    destruct (total_optional _ H Hp1) as [Hn1 Hv1].
    destruct (total_sequence _ H0 Hp2) as [Hn2 Hv2].
    destruct (total_optional _ H1 Hp3) as [Hn3 Hv3].
    split; [cbn; rewrite Hn1, Hn2, Hn3; reflexivity|].
    intros st g Hg. destruct (Hv1 st g Hg) as [s1 E1].
    destruct (visit_optional_traversal_kept _ _ _ _ E1) as (_ & _ & [g1 Hg1]);
      [eauto|].
    destruct (Hv2 s1 g1 Hg1) as [s2 E2].
    destruct (visit_sequence_traversal_kept _ _ _ _ E2) as (_ & _ & [g2 Hg2]);
      [eauto|].
    destruct (Hv3 s2 g2 Hg2) as [s3 E3].
    exists s3. cbn. rewrite E1. cbn. rewrite E2. cbn. rewrite E3. reflexivity.
  - destruct (total_sequence _ H Hp) as [Hn Hv]. split; [exact Hn|].
    intros st g Hg. destruct (Hv st g Hg) as [s1 E1].
    exists s1. cbn. rewrite E1. reflexivity.
Qed.

Lemma visit_sequence_plain (l : list AST) :
  forallb plain l = true ->
  flat_map annotations_of l = [] /\
  forall s g, global_variables s = GlobalsList g ->
              exists s', visit_sequence visit l s = Ok (l, s').
Proof.
  apply total_sequence. apply Forall_forall. intros x _. apply visit_plain.
Qed.

End Reached.

(** *** Equal variables and first occurrences *)

Lemma variable_equal_sym (x y : AST) :
  is_variable x = true -> is_variable y = true ->
  ast_equal x y = ast_equal y x.
Proof.
  destruct x, y; cbn; try discriminate. intros _ _. apply String.eqb_sym.
Qed.

Lemma variable_equal_refl (x : AST) :
  is_variable x = true -> ast_equal x x = true.
Proof.
  destruct x; cbn; try discriminate. intros _. apply String.eqb_refl.
Qed.

Lemma variable_equal_trans (x y z : AST) :
  is_variable x = true -> is_variable y = true -> is_variable z = true ->
  ast_equal x y = true -> ast_equal y z = true -> ast_equal x z = true.
Proof.
  destruct x, y, z; cbn; try discriminate. intros _ _ _.
  rewrite !String.eqb_eq. congruence.
Qed.

Lemma filter_twice {A : Type} (f g : A -> bool) (l : list A) :
  filter f (filter g l) = filter (fun x => f x && g x) l.
Proof.
  induction l as [|x l IH]; cbn; [reflexivity|].
  destruct (g x); cbn; rewrite ?andb_true_r, ?andb_false_r.
  - destruct (f x); rewrite IH; reflexivity.
  - exact IH.
Qed.

Lemma first_occurrences_incl (l : list AST) (y : AST) :
  In y (first_occurrences l) -> In y l.
Proof.
  induction l as [|x l IH]; cbn; [auto|].
  intros [->|H]; [auto|]. apply filter_In in H. right. apply IH. apply H.
Qed.

Lemma ast_in_app (y : AST) (g : list AST) (x : AST) :
  ast_in y (g ++ [x]) = ast_in y g || ast_equal x y.
Proof.
  unfold ast_in. rewrite existsb_app. cbn. rewrite orb_false_r. reflexivity.
Qed.

(** An equal variable is a member too. *)
Lemma ast_in_equal (x y : AST) (g : list AST) :
  Forall (fun v => is_variable v = true) g ->
  is_variable x = true -> is_variable y = true ->
  ast_equal x y = true -> ast_in x g = true -> ast_in y g = true.
Proof.
  intros Hg Hx Hy Hxy Hin. unfold ast_in in *.
  apply existsb_exists in Hin. destruct Hin as (e & He & Hex).
  apply existsb_exists. exists e. split; [exact He|].
  rewrite Forall_forall in Hg.
  apply (variable_equal_trans e x y); auto.
Qed.

(** The list [visit_Variable] builds is the list of first occurrences. *)
Lemma collect_first_occurrences (l g : list AST) :
  Forall (fun v => is_variable v = true) g ->
  Forall (fun v => is_variable v = true) l ->
  collect g l =
  g ++ filter (fun y => negb (ast_in y g)) (first_occurrences l).
Proof.
  revert g. induction l as [|x l IH]; intros g Hg Hl.
  - cbn. rewrite app_nil_r. reflexivity.
  - inversion Hl as [|? ? Hx Hl']; subst.
    assert (forall y, In y (first_occurrences l) -> is_variable y = true)
      as Hfo.
    { intros y Hy. rewrite Forall_forall in Hl'. apply Hl'.
      apply first_occurrences_incl. exact Hy. }
    change (collect g (x :: l)) with (collect (collect_step g x) l).
    unfold collect_step. cbn [first_occurrences filter].
    destruct (ast_in x g) eqn:Hin; cbn [negb].
    + rewrite (IH g Hg Hl'). f_equal. rewrite filter_twice.
      apply filter_ext_in. intros y Hy.
      destruct (ast_in y g) eqn:Hyg; cbn; [reflexivity|].
      destruct (ast_equal x y) eqn:Hxy; cbn; [|reflexivity].
      rewrite (ast_in_equal x y g Hg Hx (Hfo y Hy) Hxy Hin) in Hyg.
      discriminate.
    + rewrite (IH (g ++ [x])); [|apply Forall_app; auto|exact Hl'].
      rewrite <- app_assoc. cbn [app]. f_equal. f_equal.
      rewrite filter_twice. apply filter_ext. intros y.
      rewrite ast_in_app, negb_orb. reflexivity.
Qed.

Lemma first_occurrences_once (l : list AST) (v : AST) :
  Forall (fun x => is_variable x = true) l ->
  In v l ->
  List.length (filter (fun y => ast_equal y v) (first_occurrences l)) = 1%nat.
Proof.
  intros Hl. induction l as [|x l IH]; intros Hv; [destruct Hv|].
  inversion Hl as [|? ? Hx Hl']; subst.
  assert (is_variable v = true) as Hvv.
  { rewrite Forall_forall in Hl. apply Hl. exact Hv. }
  assert (forall y, In y (first_occurrences l) -> is_variable y = true)
    as Hfo.
  { intros y Hy. rewrite Forall_forall in Hl'. apply Hl'.
    apply first_occurrences_incl. exact Hy. }
  cbn [first_occurrences filter]. rewrite filter_twice.
  destruct (ast_equal x v) eqn:Hxv.
  - cbn [List.length]. f_equal.
    rewrite (filter_ext_in _ (fun _ => false)).
    + clear. induction (first_occurrences l); auto.
    + intros y Hy. destruct (ast_equal y v) eqn:Hyv; cbn; [|reflexivity].
      rewrite (variable_equal_sym y v (Hfo y Hy) Hvv) in Hyv.
      rewrite (variable_equal_trans x v y Hx Hvv (Hfo y Hy) Hxv Hyv).
      reflexivity.
  - destruct Hv as [->|Hv].
    { rewrite variable_equal_refl in Hxv by exact Hx. discriminate. }
    rewrite <- (IH Hl' Hv). f_equal. apply filter_ext_in. intros y Hy.
    destruct (ast_equal y v) eqn:Hyv; cbn; [|reflexivity].
    destruct (ast_equal x y) eqn:Hxy; cbn; [|reflexivity].
    rewrite (variable_equal_trans x y v Hx (Hfo y Hy) Hvv Hxy Hyv) in Hxv.
    discriminate.
Qed.

Lemma variables_of_variables (a : AST) :
  Forall (fun v => is_variable v = true) (variables_of a).
Proof.
  assert (forall l : list AST,
             Forall (fun a => Forall (fun v => is_variable v = true)
                                     (variables_of a)) l ->
             Forall (fun v => is_variable v = true)
                    (flat_map variables_of l)) as Hseq.
  { induction 1; cbn; [constructor|]. apply Forall_app. auto. }
  induction a using traversal_ind; cbn; auto.
  - apply Forall_app. auto.
  - apply Forall_app. split.
    + destruct lg; [apply H; reflexivity|constructor].
    + apply Forall_app. split; [auto|].
      destruct rg; [apply H1; reflexivity|constructor].
Qed.

Arguments _convert_rule : simpl never.
Arguments _get_constraint_parameters : simpl never.
Arguments emit : simpl never.

Section RuleHandler.
Context {R : Runtime}.

(** *** The traversal of a rule *)

Lemma reset_rule_state (s : LPMLNTransformer) :
  weight (reset_rule s) = WeightStr "alpha" /\
  theory_type (reset_rule s) = "" /\
  global_variables (reset_rule s) = GlobalsList [] /\
  same_session s (reset_rule s) /\
  traversal_state (reset_rule s).
Proof.
  repeat split. apply ts_alpha; reflexivity.
Qed.

(** After head and body the session fields are those of the start, the
    per-rule fields have a shape of [traversal_state], and the variables
    are the collected list. *)
Lemma rule_traversal (head : AST) (body : list AST) (s s1 s2 : LPMLNTransformer)
      (h' : AST) (b' : list AST) :
  visit head (reset_rule s) = Ok (h', s1) ->
  visit_sequence visit body s1 = Ok (b', s2) ->
  same_session s s2 /\
  traversal_state s2 /\
  global_variables s2 =
  GlobalsList (collect [] (variables_of head ++ flat_map variables_of body)).
Proof.
  intros E1 E2.
  destruct (reset_rule_state s) as (_ & _ & Hg & Hs & Hts).
  destruct (visit_traversal_kept _ _ _ _ E1) as (Hs1 & Hts1 & _).
  destruct (visit_sequence_traversal_kept _ _ _ _ E2) as (Hs2 & Hts2 & _).
  split; [|split].
  - eapply same_session_trans; [exact Hs|].
    eapply same_session_trans; eassumption.
  - auto.
  - rewrite collect_app.
    eapply visit_sequence_collects; [eassumption|].
    eapply visit_collects; eassumption.
Qed.

(** The state in which [visit_Rule] calls the encoder. *)
Lemma encoder_entry (s2 : LPMLNTransformer) (g : list AST) :
  traversal_state s2 ->
  global_variables s2 = GlobalsList g ->
  existsb (String.eqb (theory_type s2)) special_names = false ->
  theory_type s2 = "" /\ encoder_ready s2.
Proof.
  intros Hts Hg Hsp.
  destruct Hts as [Hw Ht|Hw Ht|w Hw [Ht|Ht]]; try congruence.
  - split; [exact Ht|]. split; eauto.
  - split; [exact Ht|]. split; eauto.
Qed.

(** [visit_Rule] on a rule whose traversal found no theory type. *)
Lemma visit_Rule_weighted
      (rl : Location) (head : AST) (body builder : list AST)
      (s s1 s2 : LPMLNTransformer) (h' : AST) (b' : list AST) :
  is_fact head body = false ->
  visit head (reset_rule s) = Ok (h', s1) ->
  visit_sequence visit body s1 = Ok (b', s2) ->
  theory_type s2 = "" ->
  visit_Rule (Rule rl head body) builder s =
  if weight_is_alpha (weight s2) && negb (translate_hr s2)
  then Ok (Rule rl head body, builder, set_rule_idx (rule_idx s2 + 1) s2)
  else do (asp_rules, s3) <- _convert_rule h' b' s2;
       emit asp_rules builder (set_rule_idx (rule_idx s3 + 1) s3).
Proof.
  intros Hf E1 E2 Ht. unfold visit_Rule. rewrite Hf, E1. cbn [bindR].
  rewrite E2. cbn [bindR]. rewrite Ht. cbn. reflexivity.
Qed.

(** ** Constraint parameters *)

(** C3: a rule reaches the encoder with the weight ['alpha'] or a symbol
    recorded; for ['alpha'] the weight becomes the term ["alpha"], the
    constraint weight is 1 and the priority is 1; otherwise the
    constraint weight is the recorded weight and the priority is 0; the
    priority of a hard rule is the greater number. *)
Theorem constraint_parameters_by_weight :
  (forall rl head body builder s s1 s2 h' b',
      is_fact head body = false ->
      visit head (reset_rule s) = Ok (h', s1) ->
      visit_sequence visit body s1 = Ok (b', s2) ->
      existsb (String.eqb (theory_type s2)) special_names = false ->
      weight_is_alpha (weight s2) && negb (translate_hr s2) = false ->
      encoder_ready s2 /\
      visit_Rule (Rule rl head body) builder s =
      do (asp_rules, s3) <- _convert_rule h' b' s2;
      emit asp_rules builder (set_rule_idx (rule_idx s3 + 1) s3)) /\
  (forall loc s,
      encoder_ready s ->
      exists cw prio s1,
        _get_constraint_parameters loc s =
        Ok ((SymbolicTerm loc (Number (rule_idx s)), cw, prio), s1) /\
        (weight s = WeightStr "alpha" ->
         weight s1 = WeightTerm (SymbolicTerm loc (String "alpha")) /\
         cw = SymbolicTerm loc (Number 1) /\
         prio = SymbolicTerm loc (Number 1)) /\
        (forall w, weight s = WeightSymbol w ->
         weight s1 = WeightSymbol w /\
         cw = SymbolicTerm loc w /\
         prio = SymbolicTerm loc (Number 0))) /\
  (forall loc loc' hard soft w cw cw' p p' prio prio' idx idx' h1 s1,
      weight hard = WeightStr "alpha" ->
      weight soft = WeightSymbol w ->
      _get_constraint_parameters loc hard = Ok ((idx, cw, prio), h1) ->
      _get_constraint_parameters loc' soft = Ok ((idx', cw', prio'), s1) ->
      prio = SymbolicTerm loc (Number p) ->
      prio' = SymbolicTerm loc' (Number p') ->
      p > p').
Proof.
  split; [|split].
  - intros rl head body builder s s1 s2 h' b' Hf E1 E2 Hsp Hhr.
    destruct (rule_traversal _ _ _ _ _ _ _ E1 E2) as (_ & Hts & Hg).
    destruct (encoder_entry _ _ Hts Hg Hsp) as [Ht Hready].
    split; [exact Hready|].
    rewrite (visit_Rule_weighted rl _ _ builder _ _ _ _ _ Hf E1 E2 Ht).
    rewrite Hhr. reflexivity.
  - intros loc s [[Hw|[sym Hw]] [g Hg]].
    + rewrite (constraint_parameters_alpha loc _ _ Hw Hg).
      do 3 eexists. split; [reflexivity|]. split.
      * intros _. repeat split.
      * intros w Hw'. congruence.
    + rewrite (constraint_parameters_symbol loc _ _ _ Hw Hg).
      do 3 eexists. split; [reflexivity|]. split.
      * intros Hw'. congruence.
      * intros w Hw'. rewrite Hw in Hw'. inversion Hw'; subst.
        cbn. repeat split. exact Hw.
  - intros loc loc' hard soft w cw cw' p p' prio prio' idx idx' h1 s1
           Hh Hs Eh Es Hp Hp'.
    destruct (constraint_parameters_post _ _ _ _ _ _ Eh)
      as (_ & _ & (x & _ & [(_ & _ & Hprio)|(sym & Hsym & _)]) & _);
      [|congruence].
    destruct (constraint_parameters_post _ _ _ _ _ _ Es)
      as (_ & _ & (x' & _ & [(Ha & _)|(sym & _ & _ & Hprio')]) & _).
    { rewrite Hs in Ha. discriminate. }
    rewrite Hp in Hprio. rewrite Hp' in Hprio'.
    inversion Hprio; inversion Hprio'; subst. lia.
Qed.

(** ** Choice rules without bound *)

(** C4: for a weighted rule whose head is an aggregate without guards
    the encoder returns one rule, made of the head and the body it was
    given, in either encoding; [visit_Rule] returns that rule, adds
    nothing to the builder and increments the rule index once. *)
Theorem unguarded_aggregate_unchanged
        (rl l : Location) (els body builder : list AST)
        (s s1 s2 : LPMLNTransformer) (h' : AST) (b' : list AST) :
  is_fact (Aggregate l None els None) body = false ->
  visit (Aggregate l None els None) (reset_rule s) = Ok (h', s1) ->
  visit_sequence visit body s1 = Ok (b', s2) ->
  existsb (String.eqb (theory_type s2)) special_names = false ->
  weight_is_alpha (weight s2) && negb (translate_hr s2) = false ->
  exists els' s3,
    h' = Aggregate l None els' None /\
    _convert_rule h' b' s2 = Ok ([Rule l h' b'], s3) /\
    rule_idx s3 = rule_idx s /\
    visit_Rule (Rule rl (Aggregate l None els None) body) builder s =
    Ok (Rule l h' b', builder, set_rule_idx (rule_idx s + 1) s3).
Proof.
  intros Hf E1 E2 Hsp Hhr.
  destruct (rule_traversal _ _ _ _ _ _ _ E1 E2) as (Hs2 & Hts & Hg).
  destruct (encoder_entry _ _ Hts Hg Hsp) as [Ht Hready].
  assert (exists els', h' = Aggregate l None els' None) as [els' ->].
  { cbn in E1. bind_ok E1. inversion E1; subst. eauto. }
  destruct (encoder_ready_parameters l _ Hready)
    as (idx & cw & prio & s3 & Hp).
  destruct (constraint_parameters_post _ _ _ _ _ _ Hp) as (_ & _ & _ & Hs3).
  assert (rule_idx s3 = rule_idx s) as Hidx.
  { destruct Hs2 as [A _]. destruct Hs3 as [B _]. congruence. }
  exists els', s3. split; [reflexivity|].
  pose proof (convert_rule_unguarded l els' b' s2 s3 idx cw prio Hp) as Hc.
  split; [exact Hc|]. split; [exact Hidx|].
  rewrite (visit_Rule_weighted rl _ _ builder _ _ _ _ _ Hf E1 E2 Ht).
  rewrite Hhr, Hc. cbn [bindR]. unfold emit. cbn.
  rewrite app_nil_r, Hidx. reflexivity.
Qed.

(** ** Evidence *)

(** C5, as amended: a rule whose head is an evidence annotation with at
    least one argument, over a body without theory atoms, becomes one
    integrity constraint: the head is the positive [#false] literal, the
    only body literal is the evidenced atom under [not], or under no sign
    when the second argument prints as [false]; nothing goes to the
    builder and the rule index stays. *)
Theorem evidence_integrity_constraint
        (rl hl tl : Location) (ext : bool) (e : AST) (rest els : list AST)
        (guard : option AST) (body builder : list AST)
        (s : LPMLNTransformer) :
  forallb plain body = true ->
  let head := TheoryAtom hl (Function tl "evidence" (e :: rest) ext) els guard in
  let sign :=
    match rest with
    | arg1 :: _ => if String.eqb (ast_str arg1) "false" then NoSign else Negation
    | [] => Negation
    end in
  exists s',
    visit_Rule (Rule rl head body) builder s =
    Ok (Rule rl (Literal hl NoSign (BooleanConstant false))
             [Literal hl sign (SymbolicAtom e)],
        builder, s') /\
    rule_idx s' = rule_idx s.
Proof.
  intros Hp head sign.
  destruct (visit_sequence_plain body Hp) as [Hn Hv].
  set (s1 := set_theory_type "evidence"
               (set_weight (WeightStr "") (reset_rule s))).
  assert (visit head (reset_rule s)
          = Ok (Literal hl sign (SymbolicAtom e), s1)) as E1.
  { cbn. unfold visit_TheoryAtom. cbn. destruct rest; reflexivity. }
  destruct (Hv s1 [] eq_refl) as [s2 E2].
  destruct (visit_sequence_untouched body Hn _ _ _ E2) as (_ & _ & Ht).
  destruct (visit_sequence_traversal_kept _ _ _ _ E2) as (Hs & _).
  exists s2. split.
  - unfold visit_Rule. change (is_fact head body) with false.
    cbv iota. rewrite E1. cbn [bindR]. rewrite E2. cbn [bindR].
    rewrite Ht. cbn. reflexivity.
  - destruct Hs as [A _]. rewrite A. reflexivity.
Qed.

(** ** Rules without a weight *)

(** C6, as amended: with hard-rule translation disabled, a rule that is
    not a fact and in which the traversal meets no theory atom, so that
    the weight is still ['alpha'] afterwards, is returned as it is, with
    nothing added to the builder and the rule index incremented by one;
    a fact is returned as it is, with nothing added to the builder and
    the rule index as it was. *)
Theorem unweighted_rule_unchanged
        (rl : Location) (head : AST) (body builder : list AST)
        (s : LPMLNTransformer) :
  translate_hr s = false ->
  (is_fact head body = false ->
   forallb plain (head :: body) = true ->
   exists s2 s',
     visit head (reset_rule s) = Ok (head, s2) /\
     visit_sequence visit body s2 = Ok (body, s') /\
     weight s' = WeightStr "alpha" /\
     visit_Rule (Rule rl head body) builder s =
     Ok (Rule rl head body, builder, set_rule_idx (rule_idx s + 1) s')) /\
  (is_fact head body = true ->
   visit_Rule (Rule rl head body) builder s =
   Ok (Rule rl head body, builder, reset_rule s) /\
   rule_idx (reset_rule s) = rule_idx s).
Proof.
  intros Hhr. split.
  - intros Hf Hp. cbn in Hp. apply andb_true_iff in Hp.
    destruct Hp as [Hph Hpb].
    destruct (visit_plain head Hph) as [Hnh Hvh].
    destruct (visit_sequence_plain body Hpb) as [Hnb Hvb].
    destruct (Hvh (reset_rule s) [] eq_refl) as [s1 E1].
    destruct (visit_traversal_kept _ _ _ _ E1) as (_ & _ & [g1 Hg1]);
      [eexists; reflexivity|].
    destruct (Hvb s1 g1 Hg1) as [s2 E2].
    destruct (visit_untouched head Hnh _ _ _ E1) as (_ & Hw1 & Ht1).
    destruct (visit_sequence_untouched body Hnb _ _ _ E2) as (_ & Hw2 & Ht2).
    destruct (rule_traversal _ _ _ _ _ _ _ E1 E2) as ((Hidx & _ & Hhr2 & _) & _).
    assert (weight s2 = WeightStr "alpha") as Hw
        by (rewrite Hw2, Hw1; reflexivity).
    assert (theory_type s2 = "") as Ht
        by (rewrite Ht2, Ht1; reflexivity).
    exists s1, s2. repeat (split; [assumption|]).
    rewrite (visit_Rule_weighted rl _ _ builder _ _ _ _ _ Hf E1 E2 Ht).
    rewrite Hw, Hhr2, Hhr, Hidx. reflexivity.
  - intros Hf. split; [|reflexivity].
    unfold visit_Rule. rewrite Hf. reflexivity.
Qed.

End RuleHandler.

Section Annotations.
Context {R : Runtime}.

(** *** The weight along the traversal *)

Lemma weight_after_nil (w : PyWeight) : weight_after [] w w.
Proof. left. split; reflexivity. Qed.

Lemma weight_after_app (r1 r2 : list AST) (w0 w1 w2 : PyWeight) :
  weight_after r1 w0 w1 -> weight_after r2 w1 w2 ->
  weight_after (r1 ++ r2) w0 w2.
Proof.
  intros [[-> ->]|[H1 H1']] [[-> ->]|[H2 H2']].
  - left. split; reflexivity.
  - right. split; assumption.
  - right. rewrite app_nil_r. split; assumption.
  - right. split; [|assumption].
    intros E. apply app_eq_nil in E. destruct E. contradiction.
Qed.

Let overwrites (a : AST) : Prop :=
  forall s a' s',
    visit a s = Ok (a', s') ->
    weight_after (annotations_of a) (weight s) (weight s').

Lemma overwrites_sequence (l : list AST) :
  Forall overwrites l ->
  forall s l' s',
    visit_sequence visit l s = Ok (l', s') ->
    weight_after (flat_map annotations_of l) (weight s) (weight s').
Proof.
  induction 1 as [|x l Hx _ IH]; intros s l' s' H; cbn in H.
  - inversion H; subst. apply weight_after_nil.
  - bind_ok H. bind_ok H. inversion H; subst; clear H.
    cbn [flat_map]. eapply weight_after_app; [eapply Hx|eapply IH]; eassumption.
Qed.

Lemma overwrites_optional (o : option AST) :
  (forall x, o = Some x -> overwrites x) ->
  forall s o' s',
    visit_optional visit o s = Ok (o', s') ->
    weight_after match o with Some x => annotations_of x | None => [] end
                 (weight s) (weight s').
Proof.
  intros Ho s o' s' H. destruct o as [x|]; cbn in H.
  - bind_ok H. inversion H; subst; clear H.
    eapply (Ho x eq_refl); eassumption.
  - inversion H; subst. apply weight_after_nil.
Qed.

Lemma visit_overwrites (a : AST) : overwrites a.
Proof.
  induction a using traversal_ind; intros st a' st' Hv; cbn in Hv;
    try discriminate Hv;
    try (inversion Hv; subst; apply weight_after_nil).
  - destruct (visit_Variable_spec _ _ _ _ Hv) as (_ & _ & Hw & _).
    cbn. rewrite Hw. apply weight_after_nil.
  - bind_ok Hv. inversion Hv; subst; clear Hv.
    eapply overwrites_sequence; eassumption.
  - bind_ok Hv. inversion Hv; subst; clear Hv. eapply IHa; eassumption.
  - bind_ok Hv. inversion Hv; subst; clear Hv. eapply IHa; eassumption.
  - bind_ok Hv. bind_ok Hv. inversion Hv; subst; clear Hv.
    cbn [annotations_of].
    eapply weight_after_app; [eapply IHa; eassumption|].
    eapply overwrites_sequence; eassumption.
  - bind_ok Hv. bind_ok Hv. bind_ok Hv. inversion Hv; subst; clear Hv.
    cbn [annotations_of].
    eapply weight_after_app;
      [eapply overwrites_optional; [|eassumption]; eassumption|].
    eapply weight_after_app;
      [eapply overwrites_sequence; eassumption|].
    eapply overwrites_optional; [|eassumption]; eassumption.
  - right. split; [discriminate|].
    destruct (visit_TheoryAtom_spec _ _ _ _ Hv)
      as (_ & _ & [(Hw & _)|(n & Hw & _)]); rewrite Hw; discriminate.
  - bind_ok Hv. inversion Hv; subst; clear Hv.
    eapply overwrites_sequence; eassumption.
Qed.

Lemma visit_sequence_overwrites (l : list AST) (s : LPMLNTransformer)
      (l' : list AST) (s' : LPMLNTransformer) :
  visit_sequence visit l s = Ok (l', s') ->
  weight_after (flat_map annotations_of l) (weight s) (weight s').
Proof.
  apply overwrites_sequence. apply Forall_forall. intros x _.
  apply visit_overwrites.
Qed.

(** *** The last theory atom decides *)

Lemma written_last_nil (s s' : LPMLNTransformer) :
  weight s' = weight s -> written_last [] s s'.
Proof. intros H. left. split; [reflexivity|exact H]. Qed.

Lemma written_last_app (r1 r2 : list AST) (s0 s1 s2 : LPMLNTransformer) :
  power_of_ten s1 = power_of_ten s0 ->
  written_last r1 s0 s1 -> written_last r2 s1 s2 ->
  written_last (r1 ++ r2) s0 s2.
Proof.
  intros Hpow H1 [[-> Hw2]|(pre & atom & st & a' & st' & -> & Hp & Hv & Hw2)].
  - rewrite app_nil_r.
    destruct H1 as [[-> Hw1]|(pre & atom & st & a' & st' & -> & Hp & Hv & Hw1)].
    + left. split; [reflexivity|congruence].
    + right. exists pre, atom, st, a', st'.
      repeat split; try assumption. congruence.
  - right. exists (r1 ++ pre), atom, st, a', st'.
    rewrite app_assoc. repeat split; try assumption. congruence.
Qed.

Lemma visit_power (a : AST) (s : LPMLNTransformer) (a' : AST)
      (s' : LPMLNTransformer) :
  visit a s = Ok (a', s') -> power_of_ten s' = power_of_ten s.
Proof.
  intros H. destruct (visit_traversal_kept _ _ _ _ H)
    as ((_ & _ & _ & _ & _ & Hp & _) & _). exact Hp.
Qed.

Lemma visit_sequence_power (l : list AST) (s : LPMLNTransformer)
      (l' : list AST) (s' : LPMLNTransformer) :
  visit_sequence visit l s = Ok (l', s') -> power_of_ten s' = power_of_ten s.
Proof.
  intros H. destruct (visit_sequence_traversal_kept _ _ _ _ H)
    as ((_ & _ & _ & _ & _ & Hp & _) & _). exact Hp.
Qed.

Lemma visit_optional_power (o : option AST) (s : LPMLNTransformer)
      (o' : option AST) (s' : LPMLNTransformer) :
  visit_optional visit o s = Ok (o', s') -> power_of_ten s' = power_of_ten s.
Proof.
  intros H. destruct (visit_optional_traversal_kept _ _ _ _ H)
    as ((_ & _ & _ & _ & _ & Hp & _) & _). exact Hp.
Qed.

Let writes (a : AST) : Prop :=
  forall s a' s',
    visit a s = Ok (a', s') -> written_last (annotations_of a) s s'.

Lemma writes_sequence (l : list AST) :
  Forall writes l ->
  forall s l' s',
    visit_sequence visit l s = Ok (l', s') ->
    written_last (flat_map annotations_of l) s s'.
Proof.
  induction 1 as [|x l Hx _ IH]; intros s l' s' H; cbn in H.
  - inversion H; subst. apply written_last_nil. reflexivity.
  - bind_ok H. bind_ok H. inversion H; subst; clear H.
    cbn [flat_map].
    eapply written_last_app;
      [eapply visit_power; eassumption|eapply Hx|eapply IH]; eassumption.
Qed.

Lemma writes_optional (o : option AST) :
  (forall x, o = Some x -> writes x) ->
  forall s o' s',
    visit_optional visit o s = Ok (o', s') ->
    written_last match o with Some x => annotations_of x | None => [] end
                 s s'.
Proof.
  intros Ho s o' s' H. destruct o as [x|]; cbn in H.
  - bind_ok H. inversion H; subst; clear H.
    eapply (Ho x eq_refl); eassumption.
  - inversion H; subst. apply written_last_nil. reflexivity.
Qed.

Lemma visit_writes (a : AST) : writes a.
Proof.
  induction a using traversal_ind; intros st a' st' Hv; cbn in Hv;
    try discriminate Hv;
    try (inversion Hv; subst; apply written_last_nil; reflexivity).
  - destruct (visit_Variable_spec _ _ _ _ Hv) as (_ & _ & Hw & _).
    apply written_last_nil. exact Hw.
  - bind_ok Hv. inversion Hv; subst; clear Hv.
    eapply writes_sequence; eassumption.
  - bind_ok Hv. inversion Hv; subst; clear Hv. eapply IHa; eassumption.
  - bind_ok Hv. inversion Hv; subst; clear Hv. eapply IHa; eassumption.
  - bind_ok Hv. bind_ok Hv. inversion Hv; subst; clear Hv.
    cbn [annotations_of].
    eapply written_last_app;
      [eapply visit_power; eassumption|eapply IHa; eassumption|].
    eapply writes_sequence; eassumption.
  - bind_ok Hv. bind_ok Hv. bind_ok Hv. inversion Hv; subst; clear Hv.
    cbn [annotations_of].
    eapply written_last_app;
      [eapply visit_optional_power; eassumption
      |eapply writes_optional; [|eassumption]; eassumption|].
    eapply written_last_app;
      [eapply visit_sequence_power; eassumption
      |eapply writes_sequence; eassumption|].
    eapply writes_optional; [|eassumption]; eassumption.
  - right. exists []. eexists _, st, a', st'.
    split; [reflexivity|]. split; [reflexivity|].
    split; [exact Hv|reflexivity].
  - bind_ok Hv. inversion Hv; subst; clear Hv.
    eapply writes_sequence; eassumption.
Qed.

Lemma visit_sequence_writes (l : list AST) (s : LPMLNTransformer)
      (l' : list AST) (s' : LPMLNTransformer) :
  visit_sequence visit l s = Ok (l', s') ->
  written_last (flat_map annotations_of l) s s'.
Proof.
  apply writes_sequence. apply Forall_forall. intros x _. apply visit_writes.
Qed.

(** What a theory atom leaves as weight depends on the atom and on the
    power of ten only. *)
Lemma theory_atom_weight_independent
      (a a' : AST) (st1 st1' st2 : LPMLNTransformer) :
  visit_TheoryAtom a st1 = Ok (a', st1') ->
  power_of_ten st2 = power_of_ten st1 ->
  exists st2', visit_TheoryAtom a st2 = Ok (a', st2') /\
               weight st2' = weight st1'.
Proof.
  unfold visit_TheoryAtom. intros H Hpow.
  destruct a; try discriminate H.
  destruct (ast_name a) as [name|e]; cbn [bindR] in *; [|discriminate H].
  destruct (name_in name plog_names).
  { inversion H; subst. eexists. split; reflexivity. }
  destruct (name =? "evidence")%string.
  { destruct (ast_arguments a) as [args|e]; cbn [bindR] in *;
      [|discriminate H].
    destruct (item0 args) as [ev|e]; cbn [bindR] in *; [|discriminate H].
    inversion H; subst. eexists. split; reflexivity. }
  destruct (ast_arguments a) as [args|e]; cbn [bindR] in *; [|discriminate H].
  destruct (item0 args) as [arg0|e]; cbn [bindR] in *; [|discriminate H].
  destruct (ast_symbol arg0) as [sym|e]; cbn [bindR] in *; [|discriminate H].
  destruct (annotation_weight name sym) as [n|e]; cbn [bindR] in *;
    [|discriminate H].
  inversion H; subst. eexists. split; [reflexivity|].
  cbn. rewrite Hpow. reflexivity.
Qed.

(** What a theory atom stores, by its name and its first argument. *)
Lemma theory_atom_stores
      (al : Location) (term : AST) (els : list AST) (guard : option AST)
      (st : LPMLNTransformer) (a' : AST) (st' : LPMLNTransformer) :
  visit_TheoryAtom (TheoryAtom al term els guard) st = Ok (a', st') ->
  exists name,
    ast_name term = Ok name /\
    ((existsb (String.eqb name) special_names = true /\
      weight st' = WeightStr "") \/
     (existsb (String.eqb name) special_names = false /\
      exists arg0 rest sym,
        ast_arguments term = Ok (arg0 :: rest) /\
        ast_symbol arg0 = Ok (inl sym) /\
        stored_weight name sym (power_of_ten st) (weight st'))).
Proof.
  unfold visit_TheoryAtom. intros H.
  destruct (ast_name term) as [name|e]; cbn [bindR] in H; [|discriminate H].
  exists name. split; [reflexivity|].
  destruct (name_in name plog_names) eqn:Hp.
  { inversion H; subst. left. split; [|reflexivity].
    apply plog_name_special. exact Hp. }
  destruct (name =? "evidence")%string eqn:He.
  { destruct (ast_arguments term) as [args|e]; cbn [bindR] in H;
      [|discriminate H].
    destruct (item0 args) as [ev|e]; cbn [bindR] in H; [|discriminate H].
    inversion H; subst. left. split; [|reflexivity].
    apply evidence_name_special. exact He. }
  right. split.
  { unfold name_in, plog_names in Hp. unfold special_names.
    cbn in Hp |- *. rewrite He.
    destruct (name =? "query")%string, (name =? "random")%string,
      (name =? "pr")%string, (name =? "obs")%string, (name =? "do")%string;
      cbn in Hp |- *; congruence. }
  destruct (ast_arguments term) as [args|e]; cbn [bindR] in H;
    [|discriminate H].
  destruct args as [|arg0 rest]; cbn [item0 bindR] in H; [discriminate H|].
  destruct (ast_symbol arg0) as [[sym|t]|e] eqn:Hsym; cbn [bindR] in H;
    try discriminate H.
  - destruct (annotation_weight name (inl sym)) as [n|e] eqn:Hw;
      cbn [bindR] in H; [|discriminate H].
    inversion H; subst; clear H.
    exists arg0, rest, sym. split; [reflexivity|]. split; [exact Hsym|].
    cbn [weight set_weight power_of_ten].
    unfold annotation_weight in Hw. unfold stored_weight.
    destruct (name =? "weight")%string eqn:A.
    { apply String.eqb_eq in A. subst name. cbn [bindR] in Hw.
      destruct sym as [k|str|f args pos| |]; cbn in Hw; try discriminate Hw.
      - inversion Hw; subst. left. split; [reflexivity|]. eauto.
      - destruct (eval_float str) as [x|e] eqn:Hx; cbn in Hw;
          [|discriminate Hw].
        inversion Hw; subst. right. left. split; [reflexivity|]. eauto. }
    destruct (name =? "log")%string eqn:B.
    { apply String.eqb_eq in B. subst name. cbn [bindR] in Hw.
      destruct sym as [k|str|f args pos| |]; cbn in Hw; try discriminate Hw.
      destruct (eval_float str) as [x|e] eqn:Hx; cbn in Hw;
        [|discriminate Hw].
      destruct (math_log x) as [y|e] eqn:Hy; cbn in Hw; [|discriminate Hw].
      inversion Hw; subst. right. right. left.
      split; [reflexivity|]. exists str, x, y. auto. }
    destruct (name =? "problog")%string eqn:C; [|discriminate Hw].
    apply String.eqb_eq in C. subst name. cbn [bindR] in Hw.
    destruct sym as [k|str|f args pos| |]; cbn in Hw; try discriminate Hw.
    destruct (eval_float str) as [p|e] eqn:Hx; cbn in Hw; [|discriminate Hw].
    destruct (odds p) as [q|e] eqn:Hq; cbn in Hw; [|discriminate Hw].
    destruct (math_log q) as [y|e] eqn:Hy; cbn in Hw; [|discriminate Hw].
    inversion Hw; subst. right. right. right.
    split; [reflexivity|]. exists str, p, q, y. auto.
  - exfalso. unfold annotation_weight in H.
    destruct (name =? "weight")%string; [discriminate H|].
    destruct (name =? "log")%string; [discriminate H|].
    destruct (name =? "problog")%string; discriminate H.
Qed.

(** ** The weight field *)

(** C9, as amended: the weight of a rule starts as ['alpha'], and while
    head and body are traversed only theory atoms change it.  A theory
    atom named [query], [random], [pr], [obs], [do] or [evidence] leaves
    it reset to the empty string; any other theory atom that returns is a
    [weight], [log] or [problog] annotation and leaves the scaled weight
    its name and argument stand for; a variable leaves it as it is.
    After the traversal it is ['alpha'] when no theory atom was reached,
    and otherwise what the last theory atom reached leaves: the empty
    string or a stored weight. *)
Theorem weight_overwritten_by_annotations
        (head : AST) (body : list AST) (s s1 s2 : LPMLNTransformer)
        (h' : AST) (b' : list AST) :
  visit head (reset_rule s) = Ok (h', s1) ->
  visit_sequence visit body s1 = Ok (b', s2) ->
  weight (reset_rule s) = WeightStr "alpha" /\
  (annotations_of head ++ flat_map annotations_of body = [] ->
   weight s2 = WeightStr "alpha") /\
  (annotations_of head ++ flat_map annotations_of body <> [] ->
   weight s2 = WeightStr "" \/ exists w, weight s2 = WeightSymbol w) /\
  (forall pre atom,
      annotations_of head ++ flat_map annotations_of body = pre ++ [atom] ->
      forall st,
        power_of_ten st = power_of_ten s ->
        exists a' st',
          visit_TheoryAtom atom st = Ok (a', st') /\
          weight st' = weight s2) /\
  (forall al term els guard st a' st',
      visit_TheoryAtom (TheoryAtom al term els guard) st = Ok (a', st') ->
      exists name,
        ast_name term = Ok name /\
        ((existsb (String.eqb name) special_names = true /\
          weight st' = WeightStr "") \/
         (existsb (String.eqb name) special_names = false /\
          exists arg0 rest sym,
            ast_arguments term = Ok (arg0 :: rest) /\
            ast_symbol arg0 = Ok (inl sym) /\
            stored_weight name sym (power_of_ten st) (weight st')))) /\
  (forall v st v' st',
      visit_Variable v st = Ok (v', st') -> weight st' = weight st).
Proof.
  intros E1 E2.
  pose proof (weight_after_app _ _ _ _ _
                (visit_overwrites _ _ _ _ E1)
                (visit_sequence_overwrites _ _ _ _ E2)) as Hw.
  pose proof (written_last_app _ _ _ _ _
                (visit_power _ _ _ _ E1)
                (visit_writes _ _ _ _ E1)
                (visit_sequence_writes _ _ _ _ E2)) as Hlast.
  destruct (rule_traversal _ _ _ _ _ _ _ E1 E2) as (_ & Hts & _).
  split; [reflexivity|]. split; [|split; [|split; [|split]]].
  - intros Hn. destruct Hw as [[_ Hw]|[Hr _]]; [exact Hw|contradiction].
  - intros Hr. destruct Hw as [[Hn _]|[_ Hw]]; [contradiction|].
    destruct Hts as [A _|A _|w A _]; [contradiction|left|right]; eauto.
  - intros pre atom Hr st Hpow.
    destruct Hlast
      as [[Hn _]|(pre' & atom' & st0 & a0 & st0' & Hr' & Hp0 & Hv0 & Hw0)].
    + rewrite Hn in Hr. destruct pre; discriminate Hr.
    + rewrite Hr in Hr'. apply app_inj_tail in Hr'. destruct Hr' as [_ <-].
      destruct (theory_atom_weight_independent _ _ _ _ st Hv0)
        as (st' & Hv & Hw').
      { rewrite Hpow, Hp0. reflexivity. }
      exists a0, st'. split; [exact Hv|]. congruence.
  - intros al term els guard st a' st' H.
    exact (theory_atom_stores _ _ _ _ _ _ _ H).
  - intros v st v' st' H.
    destruct (visit_Variable_spec _ _ _ _ H) as (_ & _ & Hw' & _).
    exact Hw'.
Qed.

End Annotations.

Section GlobalVariables.
Context {R : Runtime}.

(** ** Global variables *)

(** C7: after head and body of a rule are traversed, the list of global
    variables holds the variable nodes the traversal reached, each
    distinct one once, in the order of their first occurrence, with
    equality of nodes as the test; a variable node is returned as it
    is. *)
Theorem variables_collected_once
        (head : AST) (body : list AST) (s s1 s2 : LPMLNTransformer)
        (h' : AST) (b' : list AST) :
  visit head (reset_rule s) = Ok (h', s1) ->
  visit_sequence visit body s1 = Ok (b', s2) ->
  let reached := variables_of head ++ flat_map variables_of body in
  global_variables s2 = GlobalsList (first_occurrences reached) /\
  (forall v, In v reached ->
     List.length (filter (fun y => ast_equal y v)
                         (first_occurrences reached)) = 1%nat) /\
  (forall v st v' st', visit_Variable v st = Ok (v', st') -> v' = v).
Proof.
  intros E1 E2 reached.
  assert (Forall (fun v => is_variable v = true) reached) as Hvars.
  { apply Forall_app. split; [apply variables_of_variables|].
    induction body as [|x l IH] in |- *; cbn; [constructor|].
    apply Forall_app. split; [apply variables_of_variables|exact IH]. }
  destruct (rule_traversal _ _ _ _ _ _ _ E1 E2) as (_ & _ & Hg).
  split; [|split].
  - rewrite Hg. f_equal. fold reached.
    rewrite (collect_first_occurrences reached [] (Forall_nil _) Hvars).
    cbn [app]. rewrite (filter_ext _ (fun _ => true)) by reflexivity.
    clear. induction (first_occurrences reached) as [|x l IH]; cbn; congruence.
  - intros v Hv. apply first_occurrences_once; assumption.
  - intros v st v' st' H.
    destruct (visit_Variable_spec _ _ _ _ H) as (Hv & _). exact Hv.
Qed.

End GlobalVariables.

Section WeightErrors.
Context {R : Runtime}.

Lemma visit_sequence_app (l1 l2 : list AST) (s : LPMLNTransformer) :
  visit_sequence visit (l1 ++ l2) s =
  do (l1', s1) <- visit_sequence visit l1 s;
  do (l2', s2) <- visit_sequence visit l2 s1;
  Ok (l1' ++ l2', s2).
Proof.
  revert s. induction l1 as [|x l1 IH]; intros s; cbn.
  - destruct (visit_sequence visit l2 s) as [[l2' s2]|e]; reflexivity.
  - destruct (visit x s) as [[x' s1]|e]; cbn; [|reflexivity].
    rewrite IH.
    destruct (visit_sequence visit l1 s1) as [[l1' s2]|e]; cbn; [|reflexivity].
    destruct (visit_sequence visit l2 s2) as [[l2' s3]|e]; reflexivity.
Qed.

(** The annotation itself raises, whatever the state. *)
Lemma malformed_annotation_raises
      (name : string) (sym : Symbol) (e : PyError) (al tl aloc : Location)
      (ext : bool) (rest els : list AST) (guard : option AST)
      (s : LPMLNTransformer) :
  name_in name ["weight"; "log"; "problog"] = true ->
  malformed_weight sym = Some e ->
  visit_TheoryAtom
    (TheoryAtom al (Function tl name (SymbolicTerm aloc sym :: rest) ext)
                els guard) s = Err e.
Proof.
  intros Hname Hm. unfold name_in in Hname. cbn in Hname.
  assert (name = "weight" \/ name = "log" \/ name = "problog") as Hcases.
  { destruct (name =? "weight")%string eqn:A;
      [left; apply String.eqb_eq; exact A|].
    destruct (name =? "log")%string eqn:B;
      [right; left; apply String.eqb_eq; exact B|].
    destruct (name =? "problog")%string eqn:C;
      [right; right; apply String.eqb_eq; exact C|discriminate]. }
  unfold malformed_weight in Hm.
  destruct Hcases as [->|[->| ->]]; unfold visit_TheoryAtom; cbn;
    destruct sym as [n|str|f args pos| |]; try discriminate Hm; cbn;
    try (inversion Hm; reflexivity);
    destruct (eval_float str) as [x|e']; try discriminate Hm;
    inversion Hm; reflexivity.
Qed.

(** ** Malformed weights *)

(** C8, as amended: when the argument of a [weight], [log] or [problog]
    annotation is neither a number nor a string the evaluator accepts,
    the annotation raises the evaluator's exception, or [RuntimeError]
    for an argument that is no string, and [visit_Rule] on a rule that
    reaches the annotation in its body raises the same exception: no rule
    is returned and nothing is added to the builder.  The transformer
    raises no exception of its own for it. *)
Theorem malformed_weight_raises
        (name : string) (sym : Symbol) (e : PyError) (al tl aloc : Location)
        (ext : bool) (rest els : list AST) (guard : option AST) :
  name_in name ["weight"; "log"; "problog"] = true ->
  malformed_weight sym = Some e ->
  let atom :=
    TheoryAtom al (Function tl name (SymbolicTerm aloc sym :: rest) ext)
               els guard in
  (forall s, visit_TheoryAtom atom s = Err e) /\
  (forall rl head pre post ll sg builder s,
      forallb plain (head :: pre) = true ->
      visit_Rule (Rule rl head (pre ++ Literal ll sg atom :: post)) builder s
      = Err e).
Proof.
  intros Hname Hm atom. split.
  - intros s. apply malformed_annotation_raises; assumption.
  - intros rl head pre post ll sg builder s Hp.
    cbn in Hp. apply andb_true_iff in Hp. destruct Hp as [Hph Hpp].
    destruct (visit_plain head Hph) as [_ Hvh].
    destruct (visit_sequence_plain pre Hpp) as [_ Hvp].
    destruct (Hvh (reset_rule s) [] eq_refl) as [s1 E1].
    destruct (visit_traversal_kept _ _ _ _ E1) as (_ & _ & [g1 Hg1]);
      [eexists; reflexivity|].
    destruct (Hvp s1 g1 Hg1) as [s2 E2].
    assert (is_fact head (pre ++ Literal ll sg atom :: post) = false) as Hf.
    { unfold is_fact. rewrite length_app. cbn.
      rewrite Nat.add_succ_r. cbn. apply andb_false_r. }
    unfold visit_Rule. rewrite Hf, E1. cbn [bindR].
    rewrite visit_sequence_app, E2. cbn [bindR visit_sequence visit].
    change (visit atom s2) with (visit_TheoryAtom atom s2). unfold atom.
    rewrite (malformed_annotation_raises name sym e al tl aloc ext rest els
               guard s2 Hname Hm).
    reflexivity.
Qed.

End WeightErrors.

(** * The properties on the example programs *)

(** With the unsat encoding, the soft rule [a :- b, &weight(2).] makes
    the encoder, and with it [visit_Rule], raise [TypeError]. *)
Lemma unsat_encoding_by_weight_example :
  use_unsat (traversed (WeightSymbol (Number 2)) (session false true false))
  = true /\
  encoded_head (lit_ 1 "a") = true /\
  _convert_rule (R := example_runtime) (lit_ 1 "a") [lit_ 2 "b"]
    (traversed (WeightSymbol (Number 2)) (session false true false))
  = Err TypeError /\
  visit_Rule (R := example_runtime) soft_rule [] (session false true false)
  = Err TypeError.
Proof.
  split; [reflexivity|]. split; [reflexivity|]. split; [|reflexivity].
  exact (proj2 (unsat_encoding_by_weight
                  (R := example_runtime) (lit_ 1 "a") [lit_ 2 "b"]
                  (traversed (WeightSymbol (Number 2))
                             (session false true false)) []
                  eq_refl eq_refl eq_refl) (Number 2) eq_refl).
Defined.

(** A choice rule without bound is left as it is in the unsat encoding
    too: with it enabled, [{a; b} :- c] under the weight 2 is encoded as
    one rule, and [visit_Rule] returns that rule and adds nothing to the
    builder. *)
Lemma unsat_encoding_unguarded_counterexample :
  use_unsat (session false true false) = true /\
  (exists s1,
      _convert_rule choice_head [lit_ 3 "c"]
        (traversed (WeightSymbol (Number 2)) (session false true false))
      = Ok ([Rule 1 choice_head [lit_ 3 "c"]], s1)) /\
  (exists s1,
      visit_Rule (R := example_runtime) choice_rule []
                 (session false true false)
      = Ok (Rule 1 choice_head
                 [lit_ 3 "c"; Literal 4 NoSign (BooleanConstant true)],
            [], s1)).
Proof.
  split; [reflexivity|]. split; eexists; vm_compute; reflexivity.
Qed.

(** In the compact encoding, [a :- b] as a hard rule gives the choice
    rule and the weak constraint over [not a, b]. *)
Lemma compact_encoding_literal_head_example :
  use_unsat (traversed (WeightStr "alpha") (session true false true)) = false /\
  exists rules s1,
    _convert_rule (lit_ 1 "a") [lit_ 2 "b"]
      (traversed (WeightStr "alpha") (session true false true))
    = Ok (rules, s1) /\ List.length rules = 2%nat.
Proof.
  split; [reflexivity|].
  edestruct (compact_encoding_literal_head
               (R := example_runtime) 1 NoSign (atom_ 1 "a") [lit_ 2 "b"]
               (traversed (WeightStr "alpha") (session true false true)))
    as (idx & cw & prio & s1 & g & _ & _ & _ & H);
    [reflexivity
    |split; [left; reflexivity|exists []; reflexivity]
    |reflexivity
    |vm_compute; discriminate
    |].
  eexists. exists s1. split; [apply H; discriminate|reflexivity].
Defined.

(** C2 fails in two-solve-calls mode: for the soft rule [a :- b] under
    the weight 2 the weak constraint of the compact encoding has the
    [ext_helper] literal before [not a, b]. *)
Lemma compact_encoding_sentinel_counterexample :
  use_unsat (session false false true) = false /\
  exists s1,
    _convert_rule (lit_ 1 "a") [lit_ 2 "b"]
      (traversed (WeightSymbol (Number 2)) (session false false true))
    = Ok ([Rule 1 (Aggregate 1 None [ConditionalLiteral 1 (lit_ 1 "a") []] None)
                [lit_ 2 "b"];
           Minimize 1 (SymbolicTerm 1 (Number 2)) (SymbolicTerm 1 (Number 0))
                    [SymbolicTerm 1 (Number 0); Function 1 "" [] false]
                    [ext_helper_literal 1;
                     Literal 1 Negation (atom_ 1 "a"); lit_ 2 "b"]], s1) /\
    [ext_helper_literal 1; Literal 1 Negation (atom_ 1 "a"); lit_ 2 "b"]
    <> [Literal 1 Negation (atom_ 1 "a"); lit_ 2 "b"].
Proof.
  split; [reflexivity|]. eexists. split; [vm_compute; reflexivity|].
  discriminate.
Qed.

(** [{a; b} :- c, &weight(2).] is returned as one rule and counted
    once. *)
Lemma unguarded_aggregate_unchanged_example :
  exists r s',
    visit_Rule (R := example_runtime) choice_rule [] (session false false false)
    = Ok (r, [], s') /\
    rule_idx s' = 1.
Proof.
  edestruct (unguarded_aggregate_unchanged
               (R := example_runtime) 9 1
               [ConditionalLiteral 1 (lit_ 1 "a") [];
                ConditionalLiteral 2 (lit_ 2 "b") []]
               [lit_ 3 "c"; weight_2 4] [] (session false false false))
    as (els' & s3 & _ & _ & _ & H);
    [reflexivity|reflexivity|reflexivity|reflexivity|reflexivity|].
  do 2 eexists. split; [exact H|reflexivity].
Defined.

(** [&evidence(p, false).] becomes [#false :- p.] *)
Lemma evidence_integrity_constraint_example :
  exists s',
    visit_Rule (R := example_runtime) evidence_rule [] (session false false false)
    = Ok (Rule 9 (Literal 1 NoSign (BooleanConstant false))
               [Literal 1 NoSign (SymbolicAtom (const_ 2 "p"))], [], s') /\
    rule_idx s' = 0.
Proof.
  exact (evidence_integrity_constraint
           (R := example_runtime) 9 1 1 false (const_ 2 "p")
           [const_ 3 "false"] [] None [] [] (session false false false)
           eq_refl).
Defined.

(** C5 fails on a rule that carries the evidence annotation in its
    body: [a :- &evidence(p).] becomes [#false :- a.], whose only body
    literal is the head [a] of the rule, under no sign, and not a literal
    over the evidenced atom [p]. *)
Lemma evidence_in_body_counterexample :
  exists s',
    visit_Rule (R := example_runtime) evidence_body_rule []
               (session false false false)
    = Ok (Rule 9 (Literal 1 NoSign (BooleanConstant false)) [lit_ 1 "a"],
          [], s') /\
    lit_ 1 "a" <> Literal 2 Negation (SymbolicAtom (const_ 3 "p")) /\
    rule_idx s' = 0.
Proof.
  eexists. split; [vm_compute; reflexivity|]. split; [discriminate|].
  reflexivity.
Qed.

(** [a :- b.] is returned as it is and counted. *)
Lemma unweighted_rule_unchanged_example :
  exists s',
    visit_Rule (R := example_runtime) hard_rule [] (session false false false)
    = Ok (hard_rule, [], s') /\
    rule_idx s' = 1.
Proof.
  destruct (unweighted_rule_unchanged
              (R := example_runtime) 9 (lit_ 1 "a") [lit_ 2 "b"] []
              (session false false false) eq_refl) as [H _].
  destruct (H eq_refl eq_refl) as (s2 & s' & _ & _ & _ & Hr).
  eexists. split; [exact Hr|reflexivity].
Defined.

(** C6 fails on a fact: [a.] carries no weight annotation and hard-rule
    translation is off, and the rule index is 0 before and after. *)
Lemma unweighted_fact_counterexample :
  translate_hr (session false false false) = false /\
  rule_idx (session false false false) = 0 /\
  exists s',
    visit_Rule (R := example_runtime) fact_rule [] (session false false false)
    = Ok (fact_rule, [], s') /\
    weight s' = WeightStr "alpha" /\
    rule_idx s' = 0 /\
    rule_idx s' <> rule_idx (session false false false) + 1.
Proof.
  split; [reflexivity|]. split; [reflexivity|].
  eexists. split; [vm_compute; reflexivity|].
  split; [reflexivity|]. split; [reflexivity|]. discriminate.
Qed.

(** In [p(X) :- q(X, Y), r(Y), &weight(2).] the traversal collects [X]
    and [Y], once each. *)
Lemma variables_collected_once_example :
  exists h' s1 b' s2,
    visit (R := example_runtime) variable_head
          (reset_rule (session false false false)) = Ok (h', s1) /\
    visit_sequence visit variable_body s1 = Ok (b', s2) /\
    global_variables s2 = GlobalsList [Variable_ 2 "X"; Variable_ 5 "Y"].
Proof.
  do 4 eexists.
  assert (forall A B C : Prop, A /\ B /\ (A -> B -> C) -> A /\ B /\ C) as Hc
      by tauto.
  apply Hc. split; [reflexivity|]. split; [reflexivity|].
  intros E1 E2.
  exact (proj1 (variables_collected_once
                  (R := example_runtime) variable_head variable_body
                  (session false false false) _ _ _ _ E1 E2)).
Defined.

(** [&weight("abc")] raises what the evaluator raises, and so does the
    rule that carries it. *)
Lemma malformed_weight_raises_example :
  name_in "weight" ["weight"; "log"; "problog"] = true /\
  malformed_weight (R := example_runtime) (String "abc")
  = Some (ExternalError "invalid syntax") /\
  visit_Rule (R := example_runtime) bad_weight_rule []
             (session false false false)
  = Err (ExternalError "invalid syntax").
Proof.
  split; [reflexivity|]. split; [reflexivity|].
  exact (proj2 (malformed_weight_raises
                  (R := example_runtime) "weight" (String "abc")
                  (ExternalError "invalid syntax") 2 2 2 false [] [] None
                  eq_refl eq_refl)
               10 (lit_ 1 "a") [] [] 2 NoSign []
               (session false false false) eq_refl).
Defined.

(** C8 fails: the exception is the evaluator's and tells neither the
    rule nor the annotation.  [a :- &weight("abc").] and
    [b :- c, &log("abc").] are different rules with different
    annotations, and both raise the same exception. *)
Lemma malformed_weight_counterexample :
  visit_Rule (R := example_runtime) bad_weight_rule []
             (session false false false)
  = Err (ExternalError "invalid syntax") /\
  visit_Rule (R := example_runtime) bad_log_rule []
             (session false false false)
  = Err (ExternalError "invalid syntax") /\
  ast_equal bad_weight_rule bad_log_rule = false.
Proof.
  repeat split.
Qed.

(** The weight after [a :- &weight(2), &weight(3).] is the second
    one. *)
Lemma weight_overwritten_by_annotations_example :
  exists h' s1 b' s2,
    visit (R := example_runtime) (lit_ 1 "a")
          (reset_rule (session false false false)) = Ok (h', s1) /\
    visit_sequence visit twice_weighted_body s1 = Ok (b', s2) /\
    (weight s2 = WeightStr "" \/ exists w, weight s2 = WeightSymbol w).
Proof.
  do 4 eexists.
  assert (forall A B C : Prop, A /\ B /\ (A -> B -> C) -> A /\ B /\ C) as Hc
      by tauto.
  apply Hc. split; [reflexivity|]. split; [reflexivity|].
  intros E1 E2.
  apply (proj1 (proj2 (proj2 (weight_overwritten_by_annotations
                  (R := example_runtime) (lit_ 1 "a") twice_weighted_body
                  (session false false false) _ _ _ _ E1 E2)))).
  discriminate.
Defined.

(** C9 fails twice: the annotation [&query(a)], which bears no weight,
    overwrites ['alpha'] with the empty string, and in
    [a :- &weight(2), &weight(3).] the weight is overwritten by the
    first annotation and again by the second. *)
Lemma weight_overwritten_counterexample :
  (exists s1,
      visit (R := example_runtime) query_head
            (reset_rule (session false false false)) = Ok (query_head, s1) /\
      weight s1 = WeightStr "" /\
      weight s1 <> WeightStr "alpha") /\
  (exists x s1 y s2,
      visit (R := example_runtime) (weight_2 2)
            (reset_rule (session false false false)) = Ok (x, s1) /\
      weight s1 = WeightSymbol (Number 2) /\
      visit (R := example_runtime)
            (Literal 3 NoSign
                     (annotation_ 3 "weight" [SymbolicTerm 3 (Number 3)])) s1
      = Ok (y, s2) /\
      weight s2 = WeightSymbol (Number 3)).
Proof.
  split.
  - eexists. split; [reflexivity|]. split; [reflexivity|discriminate].
  - do 4 eexists. repeat split.
Qed.

(** With the unsat encoding on, the two-solve-calls flag changes nothing
    in the rules of the hard rule [a :- b]. *)
Lemma unsat_ignores_two_solve_calls_example :
  use_unsat (traversed (WeightStr "alpha") (session true true true)) = true /\
  (exists rules,
      rules_of (_convert_rule (R := example_runtime) (lit_ 1 "a") [lit_ 2 "b"]
                  (set_two_solve_calls true
                     (traversed (WeightStr "alpha") (session true true true))))
      = Ok rules /\ List.length rules = 3%nat) /\
  rules_of (_convert_rule (R := example_runtime) (lit_ 1 "a") [lit_ 2 "b"]
              (set_two_solve_calls true
                 (traversed (WeightStr "alpha") (session true true true)))) =
  rules_of (_convert_rule (R := example_runtime) (lit_ 1 "a") [lit_ 2 "b"]
              (set_two_solve_calls false
                 (traversed (WeightStr "alpha") (session true true true)))).
Proof.
  split; [reflexivity|]. split; [eexists; split; reflexivity|].
  exact (proj1 (unsat_ignores_two_solve_calls
                  (R := example_runtime) (lit_ 1 "a") [lit_ 2 "b"]
                  (traversed (WeightStr "alpha") (session true true true))
                  eq_refl)).
Defined.

(** C10 fails on a rule that mentions [ext_helper] itself: with
    hard-rule translation and the unsat encoding on, the hard rule
    [a :- ext_helper] gives rules with the [ext_helper] literal in their
    bodies, from the encoder and from [visit_Rule]. *)
Lemma unsat_ext_helper_counterexample :
  use_unsat (session true true true) = true /\
  is_ext_helper (lit_ 2 "ext_helper") = true /\
  (exists unsat not_unsat weak s1,
      _convert_rule (R := example_runtime) (lit_ 1 "a") [lit_ 2 "ext_helper"]
        (traversed (WeightStr "alpha") (session true true true))
      = Ok ([Rule 1 unsat [Literal 1 Negation (atom_ 1 "a");
                           lit_ 2 "ext_helper"];
             Rule 1 (lit_ 1 "a") [not_unsat; lit_ 2 "ext_helper"];
             weak], s1)) /\
  (exists unsat not_unsat weak s1,
      visit_Rule (R := example_runtime)
                 (Rule 9 (lit_ 1 "a") [lit_ 2 "ext_helper"]) []
                 (session true true true)
      = Ok (weak,
            [Rule 1 unsat [Literal 1 Negation (atom_ 1 "a");
                           lit_ 2 "ext_helper"];
             Rule 1 (lit_ 1 "a") [not_unsat; lit_ 2 "ext_helper"]], s1)).
Proof.
  split; [reflexivity|]. split; [reflexivity|].
  split; do 4 eexists; vm_compute; reflexivity.
Qed.

(** * Further properties *)

Section EncoderShapes.
Context {R : Runtime}.

(** The state a successful call of the encoder leaves is the one
    [_get_constraint_parameters] left. *)
Lemma convert_rule_state (head : AST) (body rules : list AST)
      (s s' : LPMLNTransformer) :
  _convert_rule head body s = Ok (rules, s') ->
  exists loc idx cw prio,
    ast_location head = Ok loc /\
    _get_constraint_parameters loc s = Ok ((idx, cw, prio), s').
Proof.
  unfold _convert_rule. intros H.
  destruct (ast_location head) as [loc|e]; cbn [bindR] in H; [|discriminate H].
  destruct (_get_constraint_parameters loc s)
    as [[[[idx cw] prio] s1]|e] eqn:Hp; cbn [bindR] in H; [|discriminate H].
  exists loc, idx, cw, prio. split; [reflexivity|].
  destruct (match head with Aggregate _ None _ None => true | _ => false end).
  { inversion H; subst. exact Hp. }
  destruct (match head with
            | Aggregate _ _ _ _ => Ok (Literal loc Negation head)
            | _ => do atom <- ast_atom head; Ok (Literal loc Negation atom)
            end) as [nh|e]; cbn [bindR] in H; [|discriminate H].
  destruct (globals_node (global_variables s1)) as [g|e];
    cbn [bindR] in H; [|discriminate H].
  destruct (use_unsat s1).
  - destruct (_get_unsat_atoms loc idx s1) as [[u nu]|e];
      cbn [bindR] in H; [|discriminate H].
    inversion H; subst. exact Hp.
  - destruct (match head with
              | Aggregate _ _ elements _ =>
                  Ok ([Rule loc (Aggregate loc None elements None) body],
                      nh :: body)
              | _ =>
                  do atom <- ast_atom head;
                  match atom with
                  | BooleanConstant false => Ok ([], body)
                  | _ =>
                      Ok ([Rule loc (Aggregate loc None
                                       [ConditionalLiteral loc head []] None)
                                body], nh :: body)
                  end
              end) as [[rs b]|e]; cbn [bindR] in H; [|discriminate H].
    inversion H; subst. exact Hp.
Qed.

(** The compact branch, from the parameters. *)
Lemma convert_rule_compact
      (head : AST) (body : list AST) (s s1 : LPMLNTransformer)
      (loc : Location) (idx cw prio g : AST) :
  use_unsat s = false ->
  encoded_head head = true ->
  ast_location head = Ok loc ->
  _get_constraint_parameters loc s = Ok ((idx, cw, prio), s1) ->
  global_variables s1 = GlobalsTerm g ->
  _convert_rule head body s =
  Ok (match head with
      | Aggregate _ _ elements _ =>
          [Rule loc (Aggregate loc None elements None) body;
           Minimize loc cw prio [idx; g]
                    (sentinel s loc prio ++ negated_head loc head :: body)]
      | Literal _ _ (BooleanConstant false) =>
          [Minimize loc cw prio [idx; g] (sentinel s loc prio ++ body)]
      | _ =>
          [Rule loc (Aggregate loc None [ConditionalLiteral loc head []] None)
                body;
           Minimize loc cw prio [idx; g]
                    (sentinel s loc prio ++ negated_head loc head :: body)]
      end, s1).
Proof.
  intros Hu Hh Hloc Hp Hg1.
  destruct (constraint_parameters_post _ _ _ _ _ _ Hp)
    as (_ & _ & _ & (_ & _ & _ & Hu1 & Ht1 & _)).
  unfold _convert_rule, sentinel. rewrite Hloc. cbn [bindR]. rewrite Hp.
  cbn [bindR].
  destruct (encoded_head_cases _ Hh)
    as [(l & sg & atom & ->)|(l & lg & els & rg & -> & Hguard)].
  - cbn. rewrite Hg1. cbn. rewrite Hu1, Hu, Ht1.
    destruct atom as [| | |v| | | | | | | |];
      try (destruct (two_solve_calls s && _); reflexivity).
    destruct v; destruct (two_solve_calls s && _); reflexivity.
  - destruct lg, rg; cbn; try (destruct Hguard; congruence);
      rewrite Hg1; cbn; rewrite Hu1, Hu, Ht1;
      destruct (two_solve_calls s && _); reflexivity.
Qed.

(** Every list of rules the encoder can return. *)
Lemma convert_rule_shapes (head : AST) (body rules : list AST)
      (s s' : LPMLNTransformer) :
  _convert_rule head body s = Ok (rules, s') ->
  exists loc idx cw prio g,
    ast_location head = Ok loc /\
    _get_constraint_parameters loc s = Ok ((idx, cw, prio), s') /\
    global_variables s' = GlobalsTerm g /\
    ((encoded_head head = false /\ rules = [Rule loc head body]) \/
     (encoded_head head = true /\ use_unsat s = true /\
      exists w,
        weight_node (weight s') = Ok w /\
        rules =
        [Rule loc (Literal loc NoSign
                     (SymbolicAtom (Function loc "unsat" [idx; w; g] false)))
              (negated_head loc head :: body);
         Rule loc head
              (Literal loc Negation
                 (SymbolicAtom (Function loc "unsat" [idx; w; g] false))
               :: body);
         Minimize loc cw prio [idx; g]
                  [Literal loc NoSign
                     (SymbolicAtom
                        (Function loc "unsat" [idx; w; g] false))]]) \/
     (encoded_head head = true /\ use_unsat s = false /\
      exists wb,
        rules = [Minimize loc cw prio [idx; g] wb] \/
        exists choice,
          rules = [Rule loc choice body; Minimize loc cw prio [idx; g] wb])).
Proof.
  intros H.
  destruct (convert_rule_state _ _ _ _ _ H)
    as (loc & idx & cw & prio & Hloc & Hp).
  destruct (constraint_parameters_post _ _ _ _ _ _ Hp)
    as (_ & (g0 & _ & Hg1) & (w & Hw & Hcase) & _).
  exists loc, idx, cw, prio, (Function loc "" g0 false).
  repeat (split; [assumption|]).
  destruct (encoded_head head) eqn:Hh.
  - right. destruct (use_unsat s) eqn:Hu.
    + left. split; [reflexivity|]. split; [reflexivity|].
      destruct Hcase as [(_ & -> & _)|(sym & Hsym & _)];
        [|rewrite (convert_rule_unsat_soft head body s s' loc idx cw prio sym
                     Hu Hh Hloc Hp Hsym) in H; discriminate H].
      assert (weight_node (weight s')
              = Ok (SymbolicTerm loc (String "alpha"))) as Hwn
          by (rewrite Hw; reflexivity).
      exists (SymbolicTerm loc (String "alpha")). split; [exact Hwn|].
      rewrite (convert_rule_unsat head body s s' loc idx cw prio _ _
                 Hu Hh Hloc Hp Hwn Hg1) in H.
      inversion H. reflexivity.
    + right. split; [reflexivity|]. split; [reflexivity|].
      rewrite (convert_rule_compact head body s s' loc idx cw prio _
                 Hu Hh Hloc Hp Hg1) in H.
      destruct (encoded_head_cases _ Hh)
        as [(l & sg & atom & ->)|(l & lg & els & rg & -> & _)].
      * destruct atom as [| | |v| | | | | | | |];
          try (inversion H; eexists; right; eexists; reflexivity).
        destruct v; inversion H; eexists;
          [right; eexists; reflexivity|left; reflexivity].
      * inversion H. eexists. right. eexists. reflexivity.
  - left. split; [reflexivity|].
    destruct head;
      try (destruct (convert_rule_no_atom _ body s Hh) as [e He];
           [intros ? ? ?; discriminate|congruence]).
    destruct left_guard, right_guard; try discriminate Hh.
    cbn in Hloc. inversion Hloc; subst.
    rewrite (convert_rule_unguarded loc elements body s s' idx cw prio Hp) in H.
    inversion H. reflexivity.
Qed.

(** ** The rules of the encoder *)

(** X1: the encoder returns between one and three rules.  For a head
    that is a literal or a guarded aggregate the last one is a weak
    constraint and the ones before it are rules; for any other head it
    returns the one rule made of the head and the body. *)
Theorem encoder_rules_shape (head : AST) (body rules : list AST)
        (s s' : LPMLNTransformer) :
  _convert_rule head body s = Ok (rules, s') ->
  (1 <= List.length rules <= 3)%nat /\
  (encoded_head head = true ->
   is_Minimize (last rules head) = true /\
   forallb is_Rule (removelast rules) = true) /\
  (encoded_head head = false ->
   exists loc, ast_location head = Ok loc /\ rules = [Rule loc head body]).
Proof.
  intros H.
  destruct (convert_rule_shapes _ _ _ _ _ H)
    as (loc & idx & cw & prio & g & Hloc & _ & _ & Hcases).
  destruct Hcases
    as [(Hh & ->)|[(Hh & _ & w & _ & ->)|(Hh & _ & wb & [->|(choice & ->)])]];
    cbn; (split; [lia|]); split; intros Hh'; try congruence;
    try (split; reflexivity).
  exists loc. split; [exact Hloc|reflexivity].
Qed.

(** X2: every rule the encoder returns carries the location of the
    head. *)
Theorem encoder_rules_location (head : AST) (body rules : list AST)
        (s s' : LPMLNTransformer) :
  _convert_rule head body s = Ok (rules, s') ->
  exists loc,
    ast_location head = Ok loc /\
    Forall (fun r => ast_location r = Ok loc) rules.
Proof.
  intros H.
  destruct (convert_rule_shapes _ _ _ _ _ H)
    as (loc & idx & cw & prio & g & Hloc & _ & _ & Hcases).
  exists loc. split; [exact Hloc|].
  destruct Hcases
    as [(Hh & ->)|[(Hh & _ & w & _ & ->)|(Hh & _ & wb & [->|(choice & ->)])]];
    repeat constructor.
Qed.

(** X3: in the compact encoding a guarded aggregate head gives the
    choice rule over the elements without the guards, on the body, and
    the weak constraint over the negated aggregate and the body, with
    the sentinel of the two-solve-calls mode in front when the priority
    prints as [0]. *)
Theorem compact_encoding_guarded_aggregate
        (l : Location) (lg rg : option AST) (els body : list AST)
        (s : LPMLNTransformer) :
  use_unsat s = false ->
  encoder_ready s ->
  lg <> None \/ rg <> None ->
  exists idx cw prio s1 g,
    _get_constraint_parameters l s = Ok ((idx, cw, prio), s1) /\
    global_variables s1 = GlobalsTerm g /\
    _convert_rule (Aggregate l lg els rg) body s =
    Ok ([Rule l (Aggregate l None els None) body;
         Minimize l cw prio [idx; g]
                  (sentinel s l prio
                   ++ Literal l Negation (Aggregate l lg els rg) :: body)],
        s1).
Proof.
  intros Hu Hr Hguard.
  destruct (encoder_ready_parameters l _ Hr) as (idx & cw & prio & s1 & Hp).
  destruct (constraint_parameters_post _ _ _ _ _ _ Hp)
    as (_ & (g0 & _ & Hg1) & _ & _).
  exists idx, cw, prio, s1, (Function l "" g0 false).
  split; [exact Hp|]. split; [exact Hg1|].
  assert (encoded_head (Aggregate l lg els rg) = true) as Hh.
  { destruct lg, rg; try reflexivity. destruct Hguard; congruence. }
  rewrite (convert_rule_compact _ body s s1 l idx cw prio _
             Hu Hh eq_refl Hp Hg1).
  reflexivity.
Qed.

End EncoderShapes.

Section RuleSteps.
Context {R : Runtime}.

Lemma last_cons (x d : AST) (rest : list AST) :
  last (x :: rest) d = last rest x.
Proof.
  revert x d. induction rest as [|y rest IH]; intros x d; [reflexivity|].
  change (last (x :: y :: rest) d) with (last (y :: rest) d).
  rewrite IH. symmetry. apply IH.
Qed.

Lemma removelast_last_cons (x : AST) (rest : list AST) :
  removelast (x :: rest) ++ [last rest x] = x :: rest.
Proof.
  rewrite <- (last_cons x x rest). symmetry.
  apply app_removelast_last. discriminate.
Qed.

(** The tail of [visit_Rule]: nothing is lost and nothing reordered. *)
Lemma emit_ok (rules builder : list AST) (s s' : LPMLNTransformer)
      (r : AST) (b' : list AST) :
  emit rules builder s = Ok (r, b', s') ->
  s' = s /\ b' = builder ++ removelast rules /\
  b' ++ [r] = builder ++ rules.
Proof.
  unfold emit. destruct rules as [|x rest]; [discriminate|].
  intros H. inversion H; subst; clear H.
  split; [reflexivity|]. split; [reflexivity|].
  rewrite <- app_assoc. f_equal. apply removelast_last_cons.
Qed.

Lemma convert_rule_same_session (head : AST) (body rules : list AST)
      (s s' : LPMLNTransformer) :
  _convert_rule head body s = Ok (rules, s') -> same_session s s'.
Proof.
  intros H.
  destruct (convert_rule_state _ _ _ _ _ H) as (loc & idx & cw & prio & _ & Hp).
  destruct (constraint_parameters_post _ _ _ _ _ _ Hp) as (_ & _ & _ & Hs).
  exact Hs.
Qed.

(** ** One rule at a time *)

(** X4: a call of [visit_Rule] that returns leaves the rule index as it
    was or one higher, leaves the four options of the session as they
    were, and only appends to the builder. *)
Theorem visit_Rule_step (rule r : AST) (builder b' : list AST)
        (s s' : LPMLNTransformer) :
  visit_Rule rule builder s = Ok (r, b', s') ->
  (rule_idx s' = rule_idx s \/ rule_idx s' = rule_idx s + 1) /\
  translate_hr s' = translate_hr s /\
  use_unsat s' = use_unsat s /\
  two_solve_calls s' = two_solve_calls s /\
  power_of_ten s' = power_of_ten s /\
  exists added, b' = builder ++ added.
Proof.
  assert (forall (t : LPMLNTransformer) (out b : list AST),
             same_session s t -> b = builder ++ out ->
             (rule_idx t = rule_idx s \/ rule_idx t = rule_idx s + 1) /\
             translate_hr t = translate_hr s /\
             use_unsat t = use_unsat s /\
             two_solve_calls t = two_solve_calls s /\
             power_of_ten t = power_of_ten s /\
             exists added, b = builder ++ added) as Hkeep.
  { intros t out b (A & _ & B & C & D & E & _) ->.
    repeat split; try assumption; [left; exact A|eauto]. }
  assert (forall (t : LPMLNTransformer) (out b : list AST),
             same_session s t -> b = builder ++ out ->
             (rule_idx (set_rule_idx (rule_idx t + 1) t) = rule_idx s \/
              rule_idx (set_rule_idx (rule_idx t + 1) t) = rule_idx s + 1) /\
             translate_hr (set_rule_idx (rule_idx t + 1) t) = translate_hr s /\
             use_unsat (set_rule_idx (rule_idx t + 1) t) = use_unsat s /\
             two_solve_calls (set_rule_idx (rule_idx t + 1) t)
             = two_solve_calls s /\
             power_of_ten (set_rule_idx (rule_idx t + 1) t) = power_of_ten s /\
             exists added, b = builder ++ added) as Hstep.
  { intros t out b (A & _ & B & C & D & E & _) ->. cbn.
    repeat split; try assumption; [right; rewrite A; reflexivity|eauto]. }
  unfold visit_Rule. intros H.
  destruct rule as [| | | | | | | | |location head body| |];
    try discriminate H.
  destruct (is_fact head body).
  { inversion H; subst; clear H.
    apply (Hkeep (reset_rule s) [] b');
      [apply reset_rule_state|symmetry; apply app_nil_r]. }
  destruct (visit head (reset_rule s)) as [[h1 s1]|e] eqn:E;
    cbn [bindR] in H; [|discriminate H].
  destruct (visit_sequence visit body s1) as [[b1 s2]|e] eqn:E0;
    cbn [bindR] in H; [|discriminate H].
  destruct (rule_traversal _ _ _ _ _ _ _ E E0) as (Hs2 & _).
  destruct (theory_type s2 =? "query")%string.
  { inversion H; subst; clear H.
    apply (Hkeep s' [] b'); [exact Hs2|symmetry; apply app_nil_r]. }
  destruct (theory_type s2 =? "evidence")%string.
  { destruct (ast_location h1) as [hl|e]; cbn [bindR] in H; [|discriminate H].
    inversion H; subst; clear H.
    apply (Hkeep s' [] b'); [exact Hs2|symmetry; apply app_nil_r]. }
  destruct (theory_type s2 =? "random")%string.
  { destruct (emit_ok _ _ _ _ _ _ H) as (-> & Hb & _).
    apply (Hkeep s2 _ b' Hs2 Hb). }
  destruct (theory_type s2 =? "pr")%string.
  { destruct (emit_ok _ _ _ _ _ _ H) as (-> & Hb & _).
    apply (Hkeep s2 _ b' Hs2 Hb). }
  destruct (name_in (theory_type s2) ["obs"; "do"]).
  { destruct (emit_ok _ _ _ _ _ _ H) as (-> & Hb & _).
    apply (Hkeep s2 _ b' Hs2 Hb). }
  destruct (weight_is_alpha (weight s2) && negb (translate_hr s2)).
  { inversion H; subst; clear H.
    apply (Hstep s2 [] b'); [exact Hs2|symmetry; apply app_nil_r]. }
  destruct (_convert_rule h1 b1 s2) as [[rules s3]|e] eqn:E1;
    cbn [bindR] in H; [|discriminate H].
  pose proof (convert_rule_same_session _ _ _ _ _ E1) as Hs3.
  destruct (emit_ok _ _ _ _ _ _ H) as (-> & Hb & _).
  eapply (Hstep s3); [|exact Hb].
  eapply same_session_trans; eassumption.
Qed.

(** X5: when a rule reaches the encoder and the encoder returns its
    rules, [visit_Rule] returns the last of them, appends the others to
    the builder in their order, at most two, and increments the rule
    index by one. *)
Theorem weighted_rules_in_order
        (rl : Location) (head : AST) (body builder : list AST)
        (s s1 s2 s3 : LPMLNTransformer) (h' : AST) (b' rules : list AST) :
  is_fact head body = false ->
  visit head (reset_rule s) = Ok (h', s1) ->
  visit_sequence visit body s1 = Ok (b', s2) ->
  existsb (String.eqb (theory_type s2)) special_names = false ->
  weight_is_alpha (weight s2) && negb (translate_hr s2) = false ->
  _convert_rule h' b' s2 = Ok (rules, s3) ->
  exists r added,
    visit_Rule (Rule rl head body) builder s =
    Ok (r, builder ++ added, set_rule_idx (rule_idx s + 1) s3) /\
    added ++ [r] = rules /\
    (List.length added <= 2)%nat.
Proof.
  intros Hf E1 E2 Hsp Hhr Hc.
  destruct (rule_traversal _ _ _ _ _ _ _ E1 E2) as (Hs2 & Hts & Hg).
  destruct (encoder_entry _ _ Hts Hg Hsp) as [Ht _].
  pose proof (convert_rule_same_session _ _ _ _ _ Hc) as Hs3.
  assert (rule_idx s3 = rule_idx s) as Hidx.
  { destruct Hs2 as [A _]. destruct Hs3 as [B _]. congruence. }
  assert (1 <= List.length rules <= 3)%nat as Hlen.
  { destruct (convert_rule_shapes _ _ _ _ _ Hc)
      as (loc & idx & cw & prio & g & _ & _ & _ & Hcases).
    destruct Hcases
      as [(_ & ->)|[(_ & _ & w & _ & ->)|(_ & _ & wb & [->|(choice & ->)])]];
      cbn; lia. }
  rewrite (visit_Rule_weighted rl _ _ builder _ _ _ _ _ Hf E1 E2 Ht).
  rewrite Hhr, Hc. cbn [bindR]. rewrite Hidx.
  destruct rules as [|x rest]; [cbn in Hlen; lia|].
  exists (last rest x), (removelast (x :: rest)).
  split; [reflexivity|]. split; [apply removelast_last_cons|].
  assert (List.length (removelast (x :: rest) ++ [last rest x])
          = List.length (x :: rest)) as Hl
      by (rewrite removelast_last_cons; reflexivity).
  rewrite length_app in Hl. cbn [List.length] in Hl, Hlen. lia.
Qed.

(** ** Theory types *)

(** X6: a rule whose head is a [query] annotation, over a body that
    reaches no theory atom, is returned as it is; the builder and the
    rule index are left alone. *)
Theorem query_rule_unchanged
        (rl hl tl : Location) (ext : bool) (args els : list AST)
        (guard : option AST) (body builder : list AST)
        (s : LPMLNTransformer) :
  forallb plain body = true ->
  let head := TheoryAtom hl (Function tl "query" args ext) els guard in
  exists s',
    visit_Rule (Rule rl head body) builder s
    = Ok (Rule rl head body, builder, s') /\
    rule_idx s' = rule_idx s.
Proof.
  intros Hp head.
  destruct (visit_sequence_plain body Hp) as [Hn Hv].
  set (s1 := set_theory_type "query"
               (set_weight (WeightStr "") (reset_rule s))).
  assert (visit head (reset_rule s) = Ok (head, s1)) as E1 by reflexivity.
  destruct (Hv s1 [] eq_refl) as [s2 E2].
  destruct (visit_sequence_untouched body Hn _ _ _ E2) as (_ & _ & Ht).
  destruct (visit_sequence_traversal_kept _ _ _ _ E2) as (Hs & _).
  exists s2. split.
  - unfold visit_Rule. change (is_fact head body) with false.
    cbv iota. rewrite E1. cbn [bindR]. rewrite E2. cbn [bindR].
    rewrite Ht. reflexivity.
  - destruct Hs as [A _]. rewrite A. reflexivity.
Qed.

(** X7: a rule whose head is a [random], [pr], [obs] or [do] annotation,
    over a body that reaches no theory atom, is replaced by the rules of
    the P-log converter for that head and body: the last one is returned
    and the others are appended to the builder in their order, without a
    change of the rule index; a converter that returns no rule makes
    [visit_Rule] raise [IndexError]. *)
Theorem plog_rule_delegated
        (name : string) (rl hl tl : Location) (ext : bool)
        (args els : list AST) (guard : option AST) (body builder : list AST)
        (s : LPMLNTransformer) :
  name_in name ["random"; "pr"; "obs"; "do"] = true ->
  forallb plain body = true ->
  let head := TheoryAtom hl (Function tl name args ext) els guard in
  exists s',
    rule_idx s' = rule_idx s /\
    visit_Rule (Rule rl head body) builder s =
    match plog_conversion name head body with
    | [] => Err IndexError
    | r :: rest => Ok (last rest r, builder ++ removelast (r :: rest), s')
    end.
Proof.
  intros Hname Hp head.
  assert (name = "random" \/ name = "pr" \/ name = "obs" \/ name = "do")
    as Hcases.
  { unfold name_in in Hname. cbn in Hname.
    destruct (name =? "random")%string eqn:A;
      [left; apply String.eqb_eq; exact A|].
    destruct (name =? "pr")%string eqn:B;
      [right; left; apply String.eqb_eq; exact B|].
    destruct (name =? "obs")%string eqn:C;
      [right; right; left; apply String.eqb_eq; exact C|].
    destruct (name =? "do")%string eqn:D;
      [right; right; right; apply String.eqb_eq; exact D|discriminate]. }
  destruct (visit_sequence_plain body Hp) as [Hn Hv].
  set (s1 := set_theory_type name
               (set_weight (WeightStr "") (reset_rule s))).
  assert (visit head (reset_rule s) = Ok (head, s1)) as E1.
  { destruct Hcases as [->|[->|[->| ->]]]; reflexivity. }
  destruct (Hv s1 [] eq_refl) as [s2 E2].
  destruct (visit_sequence_untouched body Hn _ _ _ E2) as (_ & _ & Ht).
  destruct (visit_sequence_traversal_kept _ _ _ _ E2) as (Hs & _).
  exists s2. split.
  - destruct Hs as [A _]. rewrite A. reflexivity.
  - unfold visit_Rule. change (is_fact head body) with false.
    cbv iota. rewrite E1. cbn [bindR]. rewrite E2. cbn [bindR].
    rewrite Ht. unfold plog_conversion, emit.
    destruct Hcases as [->|[->|[->| ->]]]; subst s1;
      cbn -[last removelast app];
      match goal with
      | |- context [match ?l with [] => _ | _ :: _ => _ end] => destruct l
      end; reflexivity.
Qed.

(** X8: a weight annotation as the head of a rule, over a body that
    reaches no theory atom, makes [visit_Rule] raise [AttributeError]: the
    annotation is replaced by a boolean constant, which has no location
    for the encoder to read. *)
Theorem head_weight_raises
        (rl hl tl nl : Location) (n : Z) (ext : bool) (rest els : list AST)
        (guard : option AST) (body builder : list AST)
        (s : LPMLNTransformer) :
  forallb plain body = true ->
  let head :=
    TheoryAtom hl (Function tl "weight" (SymbolicTerm nl (Number n) :: rest) ext)
               els guard in
  visit_Rule (Rule rl head body) builder s = Err AttributeError.
Proof.
  intros Hp head.
  destruct (visit_sequence_plain body Hp) as [Hn Hv].
  set (s1 := set_weight
               (WeightSymbol (calculate_weight (PyInt n) (power_of_ten s)))
               (set_weight (WeightStr "") (reset_rule s))).
  assert (visit head (reset_rule s) = Ok (BooleanConstant true, s1)) as E1
      by reflexivity.
  destruct (Hv s1 [] eq_refl) as [s2 E2].
  destruct (visit_sequence_untouched body Hn _ _ _ E2) as (_ & Hw & Ht).
  unfold visit_Rule. change (is_fact head body) with false.
  cbv iota. rewrite E1. cbn [bindR]. rewrite E2. cbn [bindR].
  rewrite Ht, Hw. reflexivity.
Qed.

End RuleSteps.

Section AnnotationEdges.
Context {R : Runtime}.

(** ** Arguments of annotations *)

(** X9: [log] and [problog] read their argument as a string only: on a
    numeric argument, which [weight] accepts, they raise
    [RuntimeError]. *)
Theorem log_needs_string
        (name : string) (al tl nl : Location) (n : Z) (ext : bool)
        (rest els : list AST) (guard : option AST) (s : LPMLNTransformer) :
  name_in name ["log"; "problog"] = true ->
  visit_TheoryAtom
    (TheoryAtom al (Function tl name (SymbolicTerm nl (Number n) :: rest) ext)
                els guard) s = Err RuntimeError /\
  exists s',
    visit_TheoryAtom
      (TheoryAtom al
                  (Function tl "weight" (SymbolicTerm nl (Number n) :: rest) ext)
                  els guard) s = Ok (BooleanConstant true, s') /\
    weight s' = WeightSymbol (calculate_weight (PyInt n) (power_of_ten s)).
Proof.
  intros Hname. split.
  - unfold name_in in Hname. cbn in Hname.
    destruct (name =? "log")%string eqn:A.
    { apply String.eqb_eq in A. subst. reflexivity. }
    destruct (name =? "problog")%string eqn:B; [|discriminate].
    apply String.eqb_eq in B. subst. reflexivity.
  - eexists. split; reflexivity.
Qed.

(** X10: an annotation whose name is none of the nine known ones, with
    a symbolic term as first argument, raises [UnboundLocalError]. *)
Theorem unknown_annotation_raises
        (name : string) (al tl nl : Location) (sym : Symbol) (ext : bool)
        (rest els : list AST) (guard : option AST) (s : LPMLNTransformer) :
  name_in name ["query"; "random"; "pr"; "obs"; "do"; "evidence";
                "weight"; "log"; "problog"] = false ->
  visit_TheoryAtom
    (TheoryAtom al (Function tl name (SymbolicTerm nl sym :: rest) ext)
                els guard) s = Err UnboundLocalError.
Proof.
  unfold name_in. cbn. intros Hname.
  repeat (apply orb_false_iff in Hname;
          let A := fresh "A" in destruct Hname as [A Hname]).
  unfold visit_TheoryAtom, name_in, plog_names, annotation_weight.
  cbn. rewrite A, A0, A1, A2, A3, A4, A5, A6, A7. reflexivity.
Qed.

(** X11: an annotation without arguments raises [IndexError], unless its
    name is one of the five P-log names, which are recorded without a
    look at the arguments. *)
Theorem empty_annotation_raises
        (name : string) (al tl : Location) (ext : bool) (els : list AST)
        (guard : option AST) (s : LPMLNTransformer) :
  let atom := TheoryAtom al (Function tl name [] ext) els guard in
  (name_in name plog_names = false ->
   visit_TheoryAtom atom s = Err IndexError) /\
  (name_in name plog_names = true ->
   exists s', visit_TheoryAtom atom s = Ok (atom, s') /\
              theory_type s' = name).
Proof.
  intros atom. unfold atom, visit_TheoryAtom. cbn [ast_name bindR].
  split; intros Hname; rewrite Hname.
  - destruct (name =? "evidence")%string; reflexivity.
  - eexists. split; reflexivity.
Qed.

(** ** Variables *)

(** X12: visiting a variable a second time changes nothing. *)
Theorem visit_Variable_idempotent
        (l : Location) (n : string) (s s1 : LPMLNTransformer) (v' : AST) :
  visit_Variable (Variable_ l n) s = Ok (v', s1) ->
  visit_Variable (Variable_ l n) s1 = Ok (Variable_ l n, s1).
Proof.
  unfold visit_Variable. intros H.
  destruct (global_variables s) as [g|t] eqn:Hg; [|discriminate H].
  destruct (negb (ast_in (Variable_ l n) g)) eqn:Hin;
    inversion H; subst; clear H; cbn.
  - rewrite ast_in_app. cbn [ast_equal]. rewrite String.eqb_refl.
    rewrite orb_true_r. reflexivity.
  - rewrite Hg, Hin. reflexivity.
Qed.

(** X13: the variables below a theory atom are not collected: a theory
    atom leaves the list of global variables as it is, and so does the
    traversal of a node that reaches no variable. *)
Theorem theory_atom_shields_variables :
  (forall a s a' s',
      visit_TheoryAtom a s = Ok (a', s') ->
      global_variables s' = global_variables s) /\
  (forall a s a' s' g,
      visit a s = Ok (a', s') ->
      global_variables s = GlobalsList g ->
      variables_of a = [] ->
      global_variables s' = GlobalsList g).
Proof.
  split.
  - intros a s a' s' H.
    destruct (visit_TheoryAtom_spec _ _ _ _ H) as (Hg & _). exact Hg.
  - intros a s a' s' g H Hg Hv.
    rewrite (visit_collects a s a' s' g H Hg), Hv. reflexivity.
Qed.

(** ** The generic rebuild *)

(** X14: the traversal of a node never changes the rule index or the
    options of the session, and a node in which it reaches no theory
    atom is returned as it is, with the weight and the theory type left
    alone. *)
Theorem traversal_rebuilds_unannotated
        (a a' : AST) (s s' : LPMLNTransformer) :
  visit a s = Ok (a', s') ->
  same_session s s' /\
  (annotations_of a = [] ->
   a' = a /\ weight s' = weight s /\ theory_type s' = theory_type s).
Proof.
  intros H. split.
  - destruct (visit_traversal_kept _ _ _ _ H) as (Hs & _). exact Hs.
  - intros Hn. exact (visit_untouched a Hn s a' s' H).
Qed.

End AnnotationEdges.

Section EndToEnd.
Context {R : Runtime}.

Lemma flat_map_variables (l : list AST) :
  Forall (fun v => is_variable v = true) (flat_map variables_of l).
Proof.
  induction l as [|x l IH]; cbn; [constructor|].
  apply Forall_app. split; [apply variables_of_variables|exact IH].
Qed.

Lemma collect_from_nil (l : list AST) :
  Forall (fun v => is_variable v = true) l ->
  collect [] l = first_occurrences l.
Proof.
  intros Hl.
  rewrite (collect_first_occurrences l [] (Forall_nil _) Hl).
  cbn [app]. rewrite (filter_ext _ (fun _ => true)) by reflexivity.
  induction (first_occurrences l) as [|x r IH]; cbn; congruence.
Qed.

(** The traversal of a body with one numeric weight annotation among
    literals that reach no theory atom. *)
Lemma weighted_body_traversal
      (pre post : list AST) (wl al tl nl : Location) (wsg : Sign) (n : Z)
      (ext : bool) (rest els : list AST) (guard : option AST)
      (s1 : LPMLNTransformer) (g : list AST) :
  forallb plain pre = true ->
  forallb plain post = true ->
  global_variables s1 = GlobalsList g ->
  exists s2,
    visit_sequence visit
      (pre ++ Literal wl wsg
                 (TheoryAtom al
                    (Function tl "weight"
                              (SymbolicTerm nl (Number n) :: rest) ext)
                    els guard) :: post) s1
    = Ok (pre ++ Literal wl wsg (BooleanConstant true) :: post, s2) /\
    weight s2 = WeightSymbol (calculate_weight (PyInt n) (power_of_ten s1)) /\
    theory_type s2 = theory_type s1.
Proof.
  intros Hpre Hpost Hg.
  destruct (visit_sequence_plain pre Hpre) as [Hn1 Hv1].
  destruct (visit_sequence_plain post Hpost) as [Hn2 Hv2].
  destruct (Hv1 s1 g Hg) as [sp E1].
  destruct (visit_sequence_untouched pre Hn1 _ _ _ E1) as (_ & _ & Ht1).
  destruct (visit_sequence_traversal_kept _ _ _ _ E1)
    as ((_ & _ & _ & _ & _ & Hpow & _) & _ & [gp Hgp]); [eauto|].
  set (sw := set_weight
               (WeightSymbol (calculate_weight (PyInt n) (power_of_ten sp)))
               (set_weight (WeightStr "") sp)).
  destruct (Hv2 sw gp Hgp) as [s2 E2].
  destruct (visit_sequence_untouched post Hn2 _ _ _ E2) as (_ & Hw2 & Ht2).
  exists s2. split; [|split].
  - rewrite visit_sequence_app, E1. cbn [bindR visit_sequence].
    change (visit (Literal wl wsg
                     (TheoryAtom al
                        (Function tl "weight"
                                  (SymbolicTerm nl (Number n) :: rest) ext)
                        els guard)) sp)
      with (Ok (A := AST * LPMLNTransformer)
               (Literal wl wsg (BooleanConstant true), sw)).
    cbn [bindR]. rewrite E2. reflexivity.
  - rewrite Hw2. cbn. rewrite Hpow. reflexivity.
  - rewrite Ht2. cbn. exact Ht1.
Qed.

(** ** A soft rule from end to end *)

(** X15: with the compact encoding and without the two-solve-calls mode,
    a rule [Head :- pre, &weight(n), post] over a literal head other than
    [#false], in which the head and the other body literals reach no
    theory atom, becomes the choice rule [{Head} :- Body'], appended to
    the builder, and the returned weak constraint over [not Head, Body'],
    where [Body'] is the body with [#true] in place of the annotation;
    the weak constraint has the scaled weight, priority 0 and the key
    made of the rule index before the call and the variables of the rule
    in the order of their first occurrence; the rule index goes up by
    one. *)
Theorem soft_rule_compact
        (rl l wl al tl nl : Location) (sg wsg : Sign) (atom : AST) (n : Z)
        (ext : bool) (rest els pre post builder : list AST)
        (guard : option AST) (s : LPMLNTransformer) :
  use_unsat s = false ->
  two_solve_calls s = false ->
  atom <> BooleanConstant false ->
  forallb plain (Literal l sg atom :: pre ++ post) = true ->
  let head := Literal l sg atom in
  let annotation :=
    Literal wl wsg
      (TheoryAtom al
         (Function tl "weight" (SymbolicTerm nl (Number n) :: rest) ext)
         els guard) in
  let body := pre ++ annotation :: post in
  let body' := pre ++ Literal wl wsg (BooleanConstant true) :: post in
  let key :=
    [SymbolicTerm l (Number (rule_idx s));
     Function l ""
       (first_occurrences (variables_of head ++ flat_map variables_of body))
       false] in
  exists s',
    visit_Rule (Rule rl head body) builder s =
    Ok (Minimize l
          (SymbolicTerm l (calculate_weight (PyInt n) (power_of_ten s)))
          (SymbolicTerm l (Number 0)) key
          (Literal l Negation atom :: body'),
        builder ++
        [Rule l (Aggregate l None [ConditionalLiteral l head []] None) body'],
        s') /\
    rule_idx s' = rule_idx s + 1.
Proof.
  intros Hu Htwo Hatom Hp head annotation body body' key.
  cbn [forallb] in Hp. apply andb_true_iff in Hp. destruct Hp as [Hph Hpb].
  rewrite forallb_app in Hpb. apply andb_true_iff in Hpb.
  destruct Hpb as [Hpre Hpost].
  destruct (visit_plain head Hph) as [Hnh Hvh].
  destruct (Hvh (reset_rule s) [] eq_refl) as [s1 E1].
  destruct (visit_untouched head Hnh _ _ _ E1) as (_ & _ & Ht1).
  destruct (visit_traversal_kept _ _ _ _ E1)
    as ((_ & _ & _ & _ & _ & Hpow1 & _) & _ & [g1 Hg1]);
    [eexists; reflexivity|].
  destruct (weighted_body_traversal pre post wl al tl nl wsg n ext rest els
              guard s1 g1 Hpre Hpost Hg1) as (s2 & E2 & Hw2 & Ht2).
  fold annotation in E2. fold body body' in E2.
  destruct (rule_traversal _ _ _ _ _ _ _ E1 E2)
    as ((Hidx & _ & _ & Hu2 & Htwo2 & _) & _ & Hg2).
  rewrite collect_from_nil in Hg2
    by (apply Forall_app; split;
        [apply variables_of_variables|apply flat_map_variables]).
  assert (theory_type s2 = "") as Ht by (rewrite Ht2, Ht1; reflexivity).
  assert (is_fact head body = false) as Hf.
  { unfold is_fact, body. rewrite length_app. cbn.
    rewrite Nat.add_succ_r. reflexivity. }
  rewrite Hpow1 in Hw2. cbn [reset_rule power_of_ten set_global_variables
                             set_theory_type set_weight] in Hw2.
  pose proof (constraint_parameters_symbol l s2 _ _ Hw2 Hg2) as Hparams.
  set (s3 := set_global_variables
               (GlobalsTerm
                  (Function l ""
                     (first_occurrences
                        (variables_of head ++ flat_map variables_of body))
                     false)) s2) in Hparams.
  assert (_convert_rule head body' s2 =
          Ok ([Rule l (Aggregate l None [ConditionalLiteral l head []] None)
                    body';
               Minimize l
                 (SymbolicTerm l (calculate_weight (PyInt n) (power_of_ten s)))
                 (SymbolicTerm l (Number 0))
                 [SymbolicTerm l (Number (rule_idx s2));
                  Function l ""
                    (first_occurrences
                       (variables_of head ++ flat_map variables_of body))
                    false]
                 (Literal l Negation atom :: body')], s3)) as Hc.
  { rewrite (convert_rule_compact head body' s2 s3 l _ _ _ _
               (eq_trans Hu2 Hu) eq_refl eq_refl Hparams eq_refl).
    unfold sentinel. rewrite Htwo2, Htwo. cbn [andb app negated_head head].
    destruct atom as [| | |v| | | | | | | |]; try reflexivity.
    destruct v; [reflexivity|congruence]. }
  exists (set_rule_idx (rule_idx s3 + 1) s3). split.
  - rewrite (visit_Rule_weighted rl _ _ builder _ _ _ _ _ Hf E1 E2 Ht).
    rewrite Hw2. cbn [weight_is_alpha andb]. rewrite Hc. cbn [bindR].
    unfold emit, key. rewrite Hidx. reflexivity.
  - cbn. rewrite Hidx. reflexivity.
Qed.

(** ** A hard rule from end to end *)

(** X16: with hard-rule translation and the unsat encoding enabled, a
    rule [Head :- Body] with a literal head and a non-empty body, in which
    no theory atom is reached, becomes [unsat :- not Head, Body] and
    [Head :- not unsat, Body], appended to the builder in this order, and
    the returned weak constraint over [unsat] with weight 1 at priority
    1, where [unsat] is the atom [unsat(idx, "alpha", globals)] over the
    rule index before the call and the variables of the rule; the rule
    index goes up by one. *)
Theorem hard_rule_unsat
        (rl l : Location) (sg : Sign) (atom : AST) (body builder : list AST)
        (s : LPMLNTransformer) :
  translate_hr s = true ->
  use_unsat s = true ->
  body <> [] ->
  forallb plain (Literal l sg atom :: body) = true ->
  let head := Literal l sg atom in
  let idx := SymbolicTerm l (Number (rule_idx s)) in
  let globals :=
    Function l ""
      (first_occurrences (variables_of head ++ flat_map variables_of body))
      false in
  let unsat_atom :=
    SymbolicAtom
      (Function l "unsat" [idx; SymbolicTerm l (String "alpha"); globals]
                false) in
  exists s',
    visit_Rule (Rule rl head body) builder s =
    Ok (Minimize l (SymbolicTerm l (Number 1)) (SymbolicTerm l (Number 1))
                 [idx; globals] [Literal l NoSign unsat_atom],
        builder ++
        [Rule l (Literal l NoSign unsat_atom)
              (Literal l Negation atom :: body);
         Rule l head (Literal l Negation unsat_atom :: body)],
        s') /\
    rule_idx s' = rule_idx s + 1.
Proof.
  intros Hhr Hu Hbody Hp head idx globals unsat_atom.
  cbn [forallb] in Hp. apply andb_true_iff in Hp. destruct Hp as [Hph Hpb].
  destruct (visit_plain head Hph) as [Hnh Hvh].
  destruct (visit_sequence_plain body Hpb) as [Hnb Hvb].
  destruct (Hvh (reset_rule s) [] eq_refl) as [s1 E1].
  destruct (visit_untouched head Hnh _ _ _ E1) as (_ & Hw1 & Ht1).
  destruct (visit_traversal_kept _ _ _ _ E1) as (_ & _ & [g1 Hg1]);
    [eexists; reflexivity|].
  destruct (Hvb s1 g1 Hg1) as [s2 E2].
  destruct (visit_sequence_untouched body Hnb _ _ _ E2) as (_ & Hw2 & Ht2).
  destruct (rule_traversal _ _ _ _ _ _ _ E1 E2)
    as ((Hidx & _ & Hhr2 & Hu2 & _) & _ & Hg2).
  rewrite collect_from_nil in Hg2
    by (apply Forall_app; split;
        [apply variables_of_variables|apply flat_map_variables]).
  assert (weight s2 = WeightStr "alpha") as Hw
      by (rewrite Hw2, Hw1; reflexivity).
  assert (theory_type s2 = "") as Ht by (rewrite Ht2, Ht1; reflexivity).
  assert (is_fact head body = false) as Hf.
  { unfold is_fact. destruct body; [congruence|reflexivity]. }
  pose proof (constraint_parameters_alpha l s2 _ Hw Hg2) as Hparams.
  set (s3 := set_weight (WeightTerm (SymbolicTerm l (String "alpha")))
               (set_global_variables (GlobalsTerm globals) s2)) in Hparams.
  pose proof (convert_rule_unsat head body s2 s3 l _ _ _ _ _
                (eq_trans Hu2 Hu) eq_refl eq_refl Hparams eq_refl eq_refl)
    as Hc.
  exists (set_rule_idx (rule_idx s3 + 1) s3). split.
  - rewrite (visit_Rule_weighted rl _ _ builder _ _ _ _ _ Hf E1 E2 Ht).
    rewrite Hw, Hhr2, Hhr. cbn [weight_is_alpha String.eqb negb andb].
    replace (("alpha" =? "alpha")%string) with true by reflexivity.
    cbn [andb]. rewrite Hc. cbn [bindR].
    unfold emit, unsat_atom, idx. rewrite Hidx. reflexivity.
  - cbn. rewrite Hidx. reflexivity.
Qed.

End EndToEnd.

(** * The further properties on the example programs *)

(** [a :- b] under the weight 2 is encoded as one to three rules. *)
Lemma encoder_rules_shape_example :
  exists rules s',
    _convert_rule (R := example_runtime) (lit_ 1 "a") [lit_ 2 "b"]
      (traversed (WeightSymbol (Number 2)) (session false false false))
    = Ok (rules, s') /\
    (1 <= List.length rules <= 3)%nat.
Proof.
  do 2 eexists.
  assert (forall A C : Prop, A /\ (A -> C) -> A /\ C) as Hc by tauto.
  apply Hc. split; [reflexivity|]. intros E.
  exact (proj1 (encoder_rules_shape (R := example_runtime) _ _ _ _ _ E)).
Defined.

(** The three rules of the hard rule [a :- b] in the unsat encoding are
    at the location of [a]. *)
Lemma encoder_rules_location_example :
  exists rules s',
    _convert_rule (R := example_runtime) (lit_ 1 "a") [lit_ 2 "b"]
      (traversed (WeightStr "alpha") (session true true false))
    = Ok (rules, s') /\
    Forall (fun r => ast_location r = Ok 1) rules.
Proof.
  do 2 eexists.
  assert (forall A C : Prop, A /\ (A -> C) -> A /\ C) as Hc by tauto.
  apply Hc. split; [reflexivity|]. intros E.
  destruct (encoder_rules_location (R := example_runtime) _ _ _ _ _ E)
    as (loc & Hloc & Hall).
  inversion Hloc; subst. exact Hall.
Defined.

(** [{a; b} = 1 :- c] under the weight 2 gives two rules. *)
Lemma compact_encoding_guarded_aggregate_example :
  exists rules s1,
    _convert_rule (R := example_runtime) bounded_choice_head [lit_ 4 "c"]
      (traversed (WeightSymbol (Number 2)) (session false false false))
    = Ok (rules, s1) /\ List.length rules = 2%nat.
Proof.
  edestruct (compact_encoding_guarded_aggregate
               (R := example_runtime) 1 None
               (Some (Node "AggregateGuard" 3 [SymbolicTerm 3 (Number 1)]))
               [ConditionalLiteral 1 (lit_ 1 "a") [];
                ConditionalLiteral 2 (lit_ 2 "b") []]
               [lit_ 4 "c"]
               (traversed (WeightSymbol (Number 2))
                          (session false false false)))
    as (idx & cw & prio & s1 & g & _ & _ & H);
    [reflexivity
    |split; [right; eexists; reflexivity|exists []; reflexivity]
    |right; discriminate
    |].
  do 2 eexists. split; [exact H|reflexivity].
Defined.

(** [a :- b, &weight(2).] moves the rule index from 0 by at most one. *)
Lemma visit_Rule_step_example :
  exists r b' s',
    visit_Rule (R := example_runtime) soft_rule [] (session false false false)
    = Ok (r, b', s') /\
    (rule_idx s' = 0 \/ rule_idx s' = 0 + 1).
Proof.
  do 3 eexists.
  assert (forall A C : Prop, A /\ (A -> C) -> A /\ C) as Hc by tauto.
  apply Hc. split; [reflexivity|]. intros E.
  exact (proj1 (visit_Rule_step (R := example_runtime) _ _ _ _ _ _ E)).
Defined.

(** In the unsat encoding the hard rule [a :- b.] adds two rules to the
    builder. *)
Lemma weighted_rules_in_order_example :
  exists r added s',
    visit_Rule (R := example_runtime) hard_rule [] (session true true false)
    = Ok (r, [] ++ added, s') /\
    List.length added = 2%nat.
Proof.
  edestruct (weighted_rules_in_order
               (R := example_runtime) 9 (lit_ 1 "a")
               [lit_ 2 "b"] [] (session true true false))
    as (r & added & H & Hrules & _);
    [reflexivity|reflexivity|reflexivity|reflexivity|reflexivity
    |reflexivity|].
  exists r, added. eexists. split; [exact H|].
  apply (f_equal (@List.length AST)) in Hrules.
  rewrite length_app in Hrules. cbn in Hrules.
  apply Nat.add_cancel_r with (p := 1%nat). exact Hrules.
Defined.

(** [&query(a).] is returned as it is. *)
Lemma query_rule_unchanged_example :
  exists s',
    visit_Rule (R := example_runtime) (Rule 9 query_head []) []
               (session false false false)
    = Ok (Rule 9 query_head [], [], s') /\
    rule_idx s' = 0.
Proof.
  exact (query_rule_unchanged
           (R := example_runtime) 9 1 1 false [const_ 2 "a"] [] None [] []
           (session false false false) eq_refl).
Defined.

(** [&random(a).] is replaced by the rule of the converter. *)
Lemma plog_rule_delegated_example :
  exists s',
    rule_idx s' = 0 /\
    visit_Rule (R := example_runtime) (Rule 9 random_head []) []
               (session false false false)
    = Ok (Rule 0 random_head [], [], s').
Proof.
  exact (plog_rule_delegated
           (R := example_runtime) "random" 9 1 1 false [const_ 2 "a"] []
           None [] [] (session false false false) eq_refl eq_refl).
Defined.

(** [&weight(2) :- b.] raises. *)
Lemma head_weight_raises_example :
  visit_Rule (R := example_runtime)
             (Rule 9 (annotation_ 1 "weight" [SymbolicTerm 1 (Number 2)])
                   [lit_ 2 "b"]) []
             (session false false false)
  = Err AttributeError.
Proof.
  exact (head_weight_raises
           (R := example_runtime) 9 1 1 1 2 false [] [] None [lit_ 2 "b"] []
           (session false false false) eq_refl).
Defined.

(** [&log(2)] raises. *)
Lemma log_needs_string_example :
  visit_TheoryAtom (R := example_runtime)
                   (annotation_ 1 "log" [SymbolicTerm 1 (Number 2)])
                   (session false false false)
  = Err RuntimeError.
Proof.
  exact (proj1 (log_needs_string
                  (R := example_runtime) "log" 1 1 1 2 false [] [] None
                  (session false false false) eq_refl)).
Defined.

(** [&prob(2)] raises. *)
Lemma unknown_annotation_raises_example :
  visit_TheoryAtom (R := example_runtime)
                   (annotation_ 1 "prob" [SymbolicTerm 1 (Number 2)])
                   (session false false false)
  = Err UnboundLocalError.
Proof.
  exact (unknown_annotation_raises
           (R := example_runtime) "prob" 1 1 1 (Number 2) false [] [] None
           (session false false false) eq_refl).
Defined.

(** [X] visited again when the list holds it. *)
Lemma visit_Variable_idempotent_example :
  visit_Variable (Variable_ 1 "X")
    (set_global_variables (GlobalsList [Variable_ 1 "X"])
                          (session false false false))
  = Ok (Variable_ 1 "X",
        set_global_variables (GlobalsList [Variable_ 1 "X"])
                             (session false false false)).
Proof.
  exact (visit_Variable_idempotent
           1 "X" (session false false false) _ (Variable_ 1 "X") eq_refl).
Defined.

(** [p(X)] is rebuilt as it is. *)
Lemma traversal_rebuilds_unannotated_example :
  exists a' s',
    visit (R := example_runtime) variable_head
          (reset_rule (session false false false)) = Ok (a', s') /\
    a' = variable_head.
Proof.
  do 2 eexists.
  assert (forall A C : Prop, A /\ (A -> C) -> A /\ C) as Hc by tauto.
  apply Hc. split; [reflexivity|]. intros E.
  exact (proj1 (proj2 (traversal_rebuilds_unannotated
                         (R := example_runtime) _ _ _ _ E) eq_refl)).
Defined.

(** [a :- b, &weight(2).] gives one choice rule and the weak constraint. *)
Lemma soft_rule_compact_example :
  exists weak choice s',
    visit_Rule (R := example_runtime) soft_rule [] (session false false false)
    = Ok (weak, [] ++ [choice], s') /\
    rule_idx s' = 0 + 1.
Proof.
  edestruct (soft_rule_compact
               (R := example_runtime) 9 1 3 3 3 3 NoSign NoSign (atom_ 1 "a")
               2 false [] [] [lit_ 2 "b"] [] [] None
               (session false false false))
    as (s' & H & Hidx);
    [reflexivity|reflexivity|discriminate|reflexivity|].
  do 3 eexists. split; [exact H|exact Hidx].
Defined.

(** [a :- b.] as a translated hard rule gives two rules and the weak constraint. *)
Lemma hard_rule_unsat_example :
  exists weak rule1 rule2 s',
    visit_Rule (R := example_runtime) hard_rule [] (session true true false)
    = Ok (weak, [] ++ [rule1; rule2], s') /\
    rule_idx s' = 0 + 1.
Proof.
  edestruct (hard_rule_unsat
               (R := example_runtime) 9 1 NoSign (atom_ 1 "a") [lit_ 2 "b"] []
               (session true true false))
    as (s' & H & Hidx);
    [reflexivity|reflexivity|discriminate|reflexivity|].
  do 4 eexists. split; [exact H|exact Hidx].
Defined.
